(** * Three-player Kuhn poker equilibrium player

    A shallow embedding of [kuhn_3p_equilibrium_player.c]: the sub-family
    classifier, the parameter validator and derivor, the three seat decision
    engines and the inverse-CDF walk of the action sampler, together with the
    properties of these functions.

    A C [double] is a binary64 number: it is modelled by Rocq's primitive
    [float], whose operations are the IEEE 754 binary64 ones (round to nearest,
    ties to even), specified by [SpecFloat].  Expressions are evaluated in
    binary64 in the order C parses them; integer literals that meet a double
    are converted first, as C does. *)

From Stdlib Require Import ZArith Lia Bool String Ascii.
From Stdlib Require Import Floats.
From stdpp Require Import base list sets strings.

Local Open Scope float_scope.
Local Open Scope string_scope.

(** ** Doubles *)

Abbreviation double := float (only parsing).

#[global] Instance double_inhabited : Inhabited float := populate 0%float.

(** The comparison operators of C on doubles.  A comparison with a NaN
    operand is false, whichever operator is used. *)
Definition dgt (x y : double) : bool := (y <? x)%float.
Definition dlt (x y : double) : bool := (x <? y)%float.
Definition dle (x y : double) : bool := (x <=? y)%float.
Definition dge (x y : double) : bool := (y <=? x)%float.
Definition deq (x y : double) : bool := (x =? y)%float.

(** [x] lies in the closed interval [[lo, hi]]. *)
Definition in_range (lo hi x : double) : bool := dle lo x && dle x hi.

(** [x] lies outside [[lo, hi]]: below [lo] or above [hi]. *)
Definition out_of_range (lo hi x : double) : bool := dlt x lo || dgt x hi.

(** ** Errors

    [print_and_throw_error] prints its message and unwinds with [Throw(1)]:
    the statements after the call are not run.  A computation over the player
    either returns or is thrown out of with the message it printed; the
    player it was working on is kept in both cases, with every store made
    before the throw. *)

Inductive outcome (A : Type) : Type :=
| Returned (a : A)
| Thrown (message : string).
Arguments Returned {A} a.
Arguments Thrown {A} message.

Definition nl : string := String (ascii_of_nat 10) EmptyString.

Definition err_b21_too_large : string :=
  "kuhn_3p_equilibrium_player: b21 greater than 1/4" ++ nl.
Definition err_b11_gt_b21 : string :=
  "kuhn_3p_equilibrium_player: b11 greater than b21" ++ nl.
Definition err_b32_too_large : string :=
  "kuhn_3p_equilibrium_player: b32 too large for any sub-family 1 equilibrium" ++ nl.
Definition err_c33_too_small : string :=
  "kuhn_3p_equilibrium_player: c33 too small for any sub-family 1 equilibrium" ++ nl.
Definition err_c33_too_large : string :=
  "kuhn_3p_equilibrium_player: c33 too large for any sub-family 1 equilibrium" ++ nl.
Definition err_c11_out_of_range : string :=
  "kuhn_3p_equilibrium_player: c11 parameter outside of range for any equilibrium sub-family" ++ nl.
Definition err_param_range : string :=
  "kuhn_3p_equilibrium_player: strategy parameters must be in [0,1]" ++ nl.

(** The three kinds of validation error. *)
Definition constraint_violations : list string :=
  [err_b21_too_large; err_b11_gt_b21; err_b32_too_large;
   err_c33_too_small; err_c33_too_large].

Definition is_constraint_violation (m : string) : bool :=
  bool_decide (m ∈ constraint_violations).

(** ** The player and computations over it *)

Record kuhn_3p_equilibrium_player_t : Type := {
  params : list double;   (* double params[NUM_PARAMS] *)
  seed : Z                (* uint32_t seed *)
}.

Definition M (A : Type) : Type :=
  kuhn_3p_equilibrium_player_t -> kuhn_3p_equilibrium_player_t * outcome A.

#[global] Instance M_ret : MRet M := fun A (a : A) pl => (pl, Returned a).

#[global] Instance M_bind : MBind M := fun A B (k : A -> M B) (m : M A) pl =>
  match m pl with
  | (pl', Returned a) => k a pl'
  | (pl', Thrown msg) => (pl', Thrown msg)
  end.

Definition print_and_throw_error {A} (message : string) : M A :=
  fun pl => (pl, Thrown message).

(** [kuhn_3p_e_player->params[i]] as an rvalue. *)
Definition load (i : nat) : M double :=
  fun pl => (pl, Returned (params pl !!! i)).

(** [kuhn_3p_e_player->params[i] = v]. *)
Definition store (i : nat) (v : double) : M unit :=
  fun pl => ({| params := <[i := v]> (params pl); seed := seed pl |}, Returned tt).

(** [if (c) print_and_throw_error(msg);] *)
Definition throw_if (c : bool) (message : string) : M unit :=
  if c then print_and_throw_error message else mret tt.

(** ** Sub-family classifier *)

(** Modelled from the spec: the header [kuhn_3p_equilibrium_player.h] with
    [NUM_SUB_FAMILIES] and [SUB_FAMILY_DEFINING_PARAM_VALUES] is not among the
    sources.  The spec has three sub-families, the first two selected by the
    exact values 0 and 1/2 of the distinguished parameter. *)
Definition NUM_SUB_FAMILIES : nat := 3.
Definition SUB_FAMILY_DEFINING_PARAM_VALUES : list double := [0; 0.5].

(** The [for] loop of [sub_family_number], from index [i], with [n]
    iterations left; [None] when the loop runs to its end. *)
Fixpoint sub_family_scan (c11 : double) (n i : nat) : option nat :=
  match n with
  | O => None
  | S n' =>
      if deq c11 (SUB_FAMILY_DEFINING_PARAM_VALUES !!! i)
      then Some (i + 1)%nat
      else sub_family_scan c11 n' (S i)
  end.

Definition sub_family_number (c11 : double) : nat :=
  match sub_family_scan c11 (NUM_SUB_FAMILIES - 1) 0 with
  | Some k => k
  | None =>
      if dgt c11 (SUB_FAMILY_DEFINING_PARAM_VALUES !!! (NUM_SUB_FAMILIES - 2)%nat)
      then (NUM_SUB_FAMILIES + 1)%nat   (* Illegal sub-family number *)
      else NUM_SUB_FAMILIES
  end.

Definition ILLEGAL_SUB_FAMILY : nat := (NUM_SUB_FAMILIES + 1)%nat.

(** ** Parameter validator and derivor *)

(** The enumerators of the absent header [kuhn_3p_equilibrium_player.h] that
    index [params]: the six free parameters, the four derived ones and the
    number of slots.  They are taken as parameters of the development. *)
Class ParamLayout : Type := {
  NUM_PARAMS : nat;
  C11_INDEX : nat;
  B11_INDEX : nat;
  B21_INDEX : nat;
  B32_INDEX : nat;
  C33_INDEX : nat;
  C34_INDEX : nat;
  B23_INDEX : nat;
  B33_INDEX : nat;
  B41_INDEX : nat;
  C21_INDEX : nat
}.

Definition free_indices `{ParamLayout} : list nat :=
  [B11_INDEX; B21_INDEX; B32_INDEX; C11_INDEX; C33_INDEX; C34_INDEX].

Definition derived_indices `{ParamLayout} : list nat :=
  [B23_INDEX; B33_INDEX; B41_INDEX; C21_INDEX].

(** Enumerators of one C [enum] are pairwise distinct, and each indexes a
    slot of [double params[NUM_PARAMS]]. *)
Definition layout_ok (L : ParamLayout) : bool :=
  bool_decide (NoDup (free_indices ++ derived_indices)) &&
  forallb (fun i => i <? NUM_PARAMS)%nat (free_indices ++ derived_indices).

(** The player holds [double params[NUM_PARAMS]]. *)
Definition player_ok `{ParamLayout} (pl : kuhn_3p_equilibrium_player_t) : Prop :=
  length (params pl) = NUM_PARAMS.

Section Validator.
Context `{L : ParamLayout}.

(** Modelled from the spec: [SUB_FAMILY_DEFINING_PARAM_INDEX] is defined in
    the absent header; the spec's distinguished parameter is c11. *)
Definition SUB_FAMILY_DEFINING_PARAM_INDEX : nat := C11_INDEX.

Definition check_family_1_params : M unit :=
  b21 ← load B21_INDEX;
  throw_if (dgt b21 (1 / 4)) err_b21_too_large;;
  b11 ← load B11_INDEX;
  b21 ← load B21_INDEX;
  throw_if (dgt b11 b21) err_b11_gt_b21;;
  b32 ← load B32_INDEX;
  b11 ← load B11_INDEX;
  b21 ← load B21_INDEX;
  throw_if (dgt b32 ((2 + 3 * b11 + 4 * b21) / 4)) err_b32_too_large;;
  c33 ← load C33_INDEX;
  b32 ← load B32_INDEX;
  throw_if (dlt c33 (1 / 2 - b32)) err_c33_too_small;;
  c33 ← load C33_INDEX;
  b32 ← load B32_INDEX;
  b11 ← load B11_INDEX;
  b21 ← load B21_INDEX;
  throw_if (dgt c33 (1 / 2 - b32 + (3 * b11 + 4 * b21) / 4)) err_c33_too_large;;
  store B23_INDEX 0;;
  b11 ← load B11_INDEX;
  b21 ← load B21_INDEX;
  store B33_INDEX ((1 + b11 + 2 * b21) / 2);;
  b11 ← load B11_INDEX;
  b21 ← load B21_INDEX;
  store B41_INDEX (2 * b11 + 2 * b21);;
  store C21_INDEX (1 / 2).

(** The final [for] loop of [check_params], from slot [i], with [n]
    iterations left. *)
Fixpoint check_range_loop (n i : nat) : M unit :=
  match n with
  | O => mret tt
  | S n' =>
      x ← load i;
      throw_if (dlt x 0 || dgt x 1) err_param_range;;
      check_range_loop n' (S i)
  end.

Definition check_params : M unit :=
  c11 ← load SUB_FAMILY_DEFINING_PARAM_INDEX;
  match sub_family_number c11 with
  | 1%nat => check_family_1_params
  | 2%nat => mret tt
  | 3%nat => mret tt
  | _ =>
      print_and_throw_error
        err_c11_out_of_range
  end;;
  check_range_loop NUM_PARAMS 0.

End Validator.

(** ** Betting history and actions *)

(** Modelled from the spec: the action types of the dealer's [game.h], which
    is not among the sources.  The spec's probability vector is indexed by
    (fold, call, raise), in this order, and has three entries. *)
Definition a_fold : nat := 0.
Definition a_call : nat := 1.
Definition a_raise : nat := 2.
Definition NUM_ACTION_TYPES : nat := 3.

Record Action : Type := {
  type : nat;   (* enum ActionType type *)
  size : Z      (* int32_t size *)
}.

(** The part of the dealer's [State] that the player reads: the recorded
    actions of each round and their number.  Both are arrays of a fixed size,
    so that a slot past the recorded actions can be read as well. *)
Record State : Type := {
  action_ : nat -> nat -> Action;   (* Action action[MAX_ROUNDS][MAX_NUM_ACTIONS] *)
  numActions : nat -> nat           (* uint8_t numActions[MAX_ROUNDS] *)
}.

(** ** Seat decision engines *)

(** The constants of the absent header that the decision engines read: the
    card ranks, the table [A] of the first seat, and the fixed entries of the
    tables of the second ([B..]) and third ([C..]) seats.  They are taken as
    parameters of the development. *)
Class StrategyTables : Type := {
  JACK_RANK : Z;
  QUEEN_RANK : Z;
  KING_RANK : Z;
  A : list (list double);
  B12 : double; B13 : double; B14 : double;
  B22 : double; B24 : double;
  B31 : double; B34 : double;
  B42 : double; B43 : double; B44 : double;
  C12 : double; C13 : double; C14 : double;
  C22 : double; C23 : double; C24 : double;
  C31 : double; C32 : double;
  C4 : list double
}.

(** The scalar constants of the tables. *)
Definition table_constants `{StrategyTables} : list double :=
  [B12; B13; B14; B22; B24; B31; B34; B42; B43; B44;
   C12; C13; C14; C22; C23; C24; C31; C32].

Section Engines.
Context `{L : ParamLayout} `{T : StrategyTables}.

(** [A[row][col]], for a row computed in [int]; a read outside the table
    has no defined value. *)
Definition A_at (row : Z) (col : nat) : option double :=
  if (row <? 0)%Z then None
  else r ← A !! Z.to_nat row; r !! col.

(** [probs] after the three stores that end each engine. *)
Definition set_probs (probs : list double) (f c r : double) : list double :=
  <[a_raise := r]> (<[a_call := c]> (<[a_fold := f]> probs)).

Definition action_probs_p0
    (card_rank : Z) (state : State) (probs : list double) : option (list double) :=
  if (numActions state 0 =? 0)%nat then (* Situation 1 *)
    a ← A_at (card_rank - JACK_RANK) 0;
    Some (set_probs probs 0 (1 - a) a)
  else
    let situation_index :=
      if (a_call =? type (action_ state 0 1))%nat then 1%nat      (* Situation 2 *)
      else if (a_fold =? type (action_ state 0 2))%nat then 2%nat (* Situation 3 *)
      else 3%nat                                                  (* Situation 4 *)
    in
    a ← A_at (card_rank - JACK_RANK) situation_index;
    Some (set_probs probs (1 - a) a 0).

(** The chain of comparisons on the card rank that picks an entry of a
    column of a seat's table. *)
Definition by_rank {X} (card_rank : Z) (jack queen king otherwise : X) : X :=
  if (JACK_RANK =? card_rank)%Z then jack
  else if (QUEEN_RANK =? card_rank)%Z then queen
  else if (KING_RANK =? card_rank)%Z then king
  else otherwise.

Definition action_probs_p1
    (params : list double) (card_rank : Z) (state : State)
    (probs : list double) : list double :=
  if (1 =? numActions state 0)%nat then
    if (a_call =? type (action_ state 0 0))%nat then (* Situation 1 *)
      let param :=
        by_rank card_rank
          (params !!! B11_INDEX) (params !!! B21_INDEX) B31 (params !!! B41_INDEX) in
      set_probs probs 0 (1 - param) param
    else (* Situation 2 *)
      let param := by_rank card_rank B12 B22 (params !!! B32_INDEX) B42 in
      set_probs probs (1 - param) param 0
  else
    if (a_fold =? type (action_ state 0 3))%nat then (* Situation 3 *)
      let param :=
        by_rank card_rank B13 (params !!! B23_INDEX) (params !!! B33_INDEX) B43 in
      set_probs probs (1 - param) param 0
    else (* Situation 4 *)
      let param := by_rank card_rank B14 B24 B34 B44 in
      set_probs probs (1 - param) param 0.

Definition action_probs_p2
    (params : list double) (card_rank : Z) (state : State)
    (probs : list double) : option (list double) :=
  if (a_call =? type (action_ state 0 0))%nat then
    if (a_call =? type (action_ state 0 1))%nat then (* Situation 1 *)
      param ←
        by_rank card_rank
          (Some (params !!! C11_INDEX)) (Some (params !!! C21_INDEX))
          (Some C31) (C4 !! 0%nat);
      Some (set_probs probs 0 (1 - param) param)
    else (* Situation 2 *)
      param ← by_rank card_rank (Some C12) (Some C22) (Some C32) (C4 !! 1%nat);
      Some (set_probs probs (1 - param) param 0)
  else
    if (a_fold =? type (action_ state 0 1))%nat then (* Situation 3 *)
      param ←
        by_rank card_rank
          (Some C13) (Some C23) (Some (params !!! C33_INDEX)) (C4 !! 2%nat);
      Some (set_probs probs (1 - param) param 0)
    else (* Situation 4 *)
      param ←
        by_rank card_rank
          (Some C14) (Some C24) (Some (params !!! C34_INDEX)) (C4 !! 3%nat);
      Some (set_probs probs (1 - param) param 0).

(** [action_probs]; the card rank is the [rankOfCard] of the viewing
    player's hole card, computed by the dealer's library. *)
Definition action_probs
    (player : kuhn_3p_equilibrium_player_t)
    (viewingPlayer : nat) (card_rank : Z) (state : State)
    (probs : list double) : option (list double) :=
  if (0 =? viewingPlayer)%nat then action_probs_p0 card_rank state probs
  else if (1 =? viewingPlayer)%nat then
    Some (action_probs_p1 (params player) card_rank state probs)
  else action_probs_p2 (params player) card_rank state probs.

(** ** Action sampler *)

(** The [for] loop of [action], entered at action type [i] with [n]
    iterations left and the draw reduced to [r]; the result is the value of
    [i] when the loop is left. *)
Fixpoint sample_walk (probs : list double) (n i : nat) (r : double) : nat :=
  match n with
  | O => i
  | S n' =>
      if dle r (probs !!! i) then i
      else sample_walk probs n' (S i) (r - probs !!! i)
  end.

(** The selection made by [action] on a probability vector, for the draw
    [r] of [genrand_real2]. *)
Definition sample (probs : list double) (r : double) : Action :=
  let i := sample_walk probs (NUM_ACTION_TYPES - a_fold) a_fold r in
  {| type := i; size := 0 |}.


(** [action]: the probability vector of the decision point, then the
    walk.  [r] is the draw that [genrand_real2] returns. *)
Definition action
    (player : kuhn_3p_equilibrium_player_t)
    (viewingPlayer : nat) (card_rank : Z) (state : State)
    (r : double) : option Action :=
  probs ← action_probs player viewingPlayer card_rank state
            (replicate NUM_ACTION_TYPES 0);
  Some (sample probs r).

End Engines.

(** ** Vocabulary of the statements *)

(** A double that is a number, not a NaN. *)
Definition is_number (x : double) : bool := negb (is_nan x).

(** The five inequalities of sub-family 1, in the order of the checks. *)
Inductive inequality : Type :=
| b21_le_quarter      (* (i)   b21 <= 1/4 *)
| b11_le_b21          (* (ii)  b11 <= b21 *)
| b32_upper           (* (iii) b32 <= (2 + 3 b11 + 4 b21) / 4 *)
| c33_lower           (* (iv)  c33 >= 1/2 - b32 *)
| c33_upper.          (* (v)   c33 <= 1/2 - b32 + (3 b11 + 4 b21) / 4 *)

Definition inequalities : list inequality :=
  [b21_le_quarter; b11_le_b21; b32_upper; c33_lower; c33_upper].

(** The inequalities checked before a given one. *)
Definition earlier (i : inequality) : list inequality :=
  match i with
  | b21_le_quarter => []
  | b11_le_b21 => [b21_le_quarter]
  | b32_upper => [b21_le_quarter; b11_le_b21]
  | c33_lower => [b21_le_quarter; b11_le_b21; b32_upper]
  | c33_upper => [b21_le_quarter; b11_le_b21; b32_upper; c33_lower]
  end.

(** The error that names an inequality. *)
Definition error_of (i : inequality) : string :=
  match i with
  | b21_le_quarter => err_b21_too_large
  | b11_le_b21 => err_b11_gt_b21
  | b32_upper => err_b32_too_large
  | c33_lower => err_c33_too_small
  | c33_upper => err_c33_too_large
  end.

Section Inequalities.
Context `{L : ParamLayout}.
Variable p : list double.

Let b11 := p !!! B11_INDEX.
Let b21 := p !!! B21_INDEX.
Let b32 := p !!! B32_INDEX.
Let c33 := p !!! C33_INDEX.

(** The parameter vector [p] satisfies the inequality. *)
Definition holds (i : inequality) : bool :=
  match i with
  | b21_le_quarter => dle b21 (1 / 4)
  | b11_le_b21 => dle b11 b21
  | b32_upper => dle b32 ((2 + 3 * b11 + 4 * b21) / 4)
  | c33_lower => dge c33 (1 / 2 - b32)
  | c33_upper => dle c33 (1 / 2 - b32 + (3 * b11 + 4 * b21) / 4)
  end.

(** The parameter vector [p] violates the inequality: the opposite strict
    comparison holds. *)
Definition violated (i : inequality) : bool :=
  match i with
  | b21_le_quarter => dgt b21 (1 / 4)
  | b11_le_b21 => dgt b11 b21
  | b32_upper => dgt b32 ((2 + 3 * b11 + 4 * b21) / 4)
  | c33_lower => dlt c33 (1 / 2 - b32)
  | c33_upper => dgt c33 (1 / 2 - b32 + (3 * b11 + 4 * b21) / 4)
  end.

(** The closed forms of the four derived parameters. *)
Definition b23_closed_form : double := 0.
Definition b33_closed_form : double := (1 + b11 + 2 * b21) / 2.
Definition b41_closed_form : double := 2 * b11 + 2 * b21.
Definition c21_closed_form : double := 1 / 2.

(** [p] with the derived slots set to their closed forms. *)
Definition with_derived : list double :=
  <[C21_INDEX := c21_closed_form]>
    (<[B41_INDEX := b41_closed_form]>
       (<[B33_INDEX := b33_closed_form]>
          (<[B23_INDEX := b23_closed_form]> p))).

End Inequalities.

(** The parameter vector after the four stores that end
    [check_family_1_params], each right-hand side read from the vector as
    the earlier stores left it. *)
Definition after_stores `{ParamLayout} (p : list double) : list double :=
  let p1 := <[B23_INDEX := 0]> p in
  let p2 := <[B33_INDEX := (1 + p1 !!! B11_INDEX + 2 * p1 !!! B21_INDEX) / 2]> p1 in
  let p3 := <[B41_INDEX := 2 * p2 !!! B11_INDEX + 2 * p2 !!! B21_INDEX]> p2 in
  <[C21_INDEX := 1 / 2]> p3.

(** The sub-family checks of [check_params], before its final pass, return
    on [pl] and leave [pl1]. *)
Definition family_checks_pass `{ParamLayout}
    (pl pl1 : kuhn_3p_equilibrium_player_t) : Prop :=
  (sub_family_number (params pl !!! C11_INDEX) = 1%nat /\
   check_family_1_params pl = (pl1, Returned tt)) \/
  ((sub_family_number (params pl !!! C11_INDEX) = 2%nat \/
    sub_family_number (params pl !!! C11_INDEX) = 3%nat) /\ pl1 = pl).

(** The player with another parameter vector. *)
Definition with_params (pl : kuhn_3p_equilibrium_player_t) (p : list double)
  : kuhn_3p_equilibrium_player_t :=
  {| params := p; seed := seed pl |}.

(** ** Example data

    A layout of the ten named slots, in the order in which the spec lists
    them (free parameters first), and a parameter vector of sub-family 1 that
    satisfies the five inequalities. *)
Definition example_layout : ParamLayout := {|
  NUM_PARAMS := 10;
  B11_INDEX := 0; B21_INDEX := 1; B32_INDEX := 2;
  C11_INDEX := 3; C33_INDEX := 4; C34_INDEX := 5;
  B23_INDEX := 6; B33_INDEX := 7; B41_INDEX := 8; C21_INDEX := 9
|}.

Definition player_of (p : list double) : kuhn_3p_equilibrium_player_t :=
  {| params := p; seed := 42 |}.

(** b11 = 1/8, b21 = 1/4, b32 = 1/2, c11 = 0, c33 = 1/4, c34 = 1/2; the
    derived slots are still zero, as [init_private_info] finds them when the
    caller passes zeros. *)
Definition example_params : list double :=
  [0.125; 0.25; 0.5; 0; 0.25; 0.5; 0; 0; 0; 0].

Definition example_player : kuhn_3p_equilibrium_player_t :=
  player_of example_params.

(** The example vector with one free parameter moved so that the given
    inequality, and no earlier one, is violated. *)
Definition violating_example (i : inequality) : list double :=
  match i with
  | b21_le_quarter => <[1%nat := 0.5]> example_params      (* b21 = 1/2 *)
  | b11_le_b21 => <[0%nat := 0.5]> example_params          (* b11 = 1/2 *)
  | b32_upper => <[2%nat := 0.875]> example_params         (* b32 = 7/8 *)
  | c33_lower => <[4%nat := -0.125]> example_params        (* c33 = -1/8 *)
  | c33_upper => <[4%nat := 0.5]> example_params           (* c33 = 1/2 *)
  end.

(** The example player after validation. *)
Definition example_validated : kuhn_3p_equilibrium_player_t :=
  player_of [0.125; 0.25; 0.5; 0; 0.25; 0.5; 0; 0.8125; 0.75; 0.5].

(** The example vector with c11 moved below 0, and above 1/2. *)
Definition negative_c11_params : list double := <[3%nat := -0.25]> example_params.
Definition large_c11_params : list double := <[3%nat := 0.75]> example_params.

(** A vector of sub-family 2 (c11 = 1/2) whose slot c34 holds a NaN. *)
Definition nan_c34_params : list double :=
  <[5%nat := nan]> (<[3%nat := 0.5]> example_params).

(** The situation of the first seat, as the spec numbers it: 1 with no
    prior action; otherwise 2 when the second recorded action is a call, 3
    when the third is a fold, and 4 in the remaining case. *)
Definition seat0_situation (state : State) : nat :=
  if (numActions state 0 =? 0)%nat then 1%nat
  else if (type (action_ state 0 1) =? a_call)%nat then 2%nat
  else if (type (action_ state 0 2) =? a_fold)%nat then 3%nat
  else 4%nat.

(** A table of constants to run the engines on: ranks 9 to 12 for Jack to
    Ace, and entries that are all probabilities. *)
Definition example_tables : StrategyTables := {|
  JACK_RANK := 9; QUEEN_RANK := 10; KING_RANK := 11;
  A := [[0; 0; 0; 0]; [0; 0; 0; 0]; [0; 0; 0.5; 0]; [0.25; 1; 1; 1]];
  B12 := 0; B13 := 0; B14 := 0;
  B22 := 0; B24 := 0;
  B31 := 0; B34 := 0;
  B42 := 1; B43 := 1; B44 := 1;
  C12 := 0; C13 := 0; C14 := 0;
  C22 := 0; C23 := 0.5; C24 := 0;
  C31 := 0; C32 := 0;
  C4 := [1; 1; 1; 1]
|}.

(** A betting history given by the recorded action types of round 0. *)
Definition history (types : list nat) : State := {|
  action_ := fun round i =>
    {| type := if (round =? 0)%nat then types !!! i else 0%nat; size := 0 |};
  numActions := fun round => if (round =? 0)%nat then length types else 0%nat
|}.

(** ** Vocabulary of the rounding lemmas *)

Local Open Scope Z_scope.

(** After [n >= 1] steps of [shr_1] from the mantissa [M], the record holds
    the quotient of [M] by [2 ^ n], the bit of [M] below the quotient and
    whether the lower bits are all zero. *)
Definition shr_inv (M n : Z) (mrs : shr_record) : Prop :=
  0 <= shr_m mrs /\
  exists sigma : Z,
    M = shr_m mrs * 2 ^ n + Z.b2z (shr_r mrs) * 2 ^ (n - 1) + sigma /\
    0 <= sigma < 2 ^ (n - 1) /\
    (shr_s mrs = true <-> sigma <> 0).

(** The quotient of [M] by [2 ^ n], rounded to nearest, ties to even. *)
Definition rne (M n : Z) : Z :=
  let m := M / 2 ^ n in
  let rho := M mod 2 ^ n in
  if 2 * rho <? 2 ^ n then m
  else if 2 ^ n <? 2 * rho then m + 1
  else if Z.even m then m else m + 1.

(** The binary64 number 1. *)
Definition SF_one : spec_float := S754_finite false 4503599627370496 (-52).

Local Close Scope Z_scope.

(** ** Probability vectors *)

(** A probability vector over (fold, call, raise): three entries, each in
    [0, 1], whose sum, taken from the first entry on, is 1. *)
Definition is_distribution (v : list double) : Prop :=
  length v = NUM_ACTION_TYPES /\
  (forall x, x ∈ v -> in_range 0 1 x = true) /\
  v !!! a_fold + v !!! a_call + v !!! a_raise = 1.

(** The tables of the absent header are as the engines index them, a table
    [A] of four rows (Jack to Ace) and four columns (situations 1 to 4) and
    four entries in [C4], and every constant is a probability. *)
Definition tables_ok (T : StrategyTables) : bool :=
  (length A =? 4)%nat && forallb (fun row => length row =? 4)%nat A &&
  (length C4 =? 4)%nat &&
  forallb (forallb (in_range 0 1)) A &&
  forallb (in_range 0 1) C4 &&
  forallb (in_range 0 1) table_constants.

(** A validated parameter vector: every entry is in [0, 1]. *)
Definition params_in_range (p : list double) : Prop :=
  forall x, x ∈ p -> in_range 0 1 x = true.

(** ** More example data *)

(** A vector of sub-family 2 whose derived slots hold what the caller put
    there, and the example vector of sub-family 1 with c34 moved to 2. *)
Definition family_2_params : list double :=
  [0.125; 0.25; 0.5; 0.5; 0.25; 0.5; 0.75; 0.25; 1; 0].
Definition large_c34_params : list double := <[5%nat := 2]> example_params.

(** A probability vector that gives fold the probability 0. *)
Definition example_probs : list double := [0; 0.25; 0.75].

(** ** Construction of a player *)

(** Modelled from the spec: the betting types of the dealer's [game.h], which
    is not among the sources; the spec's game shape is limit betting. *)
Inductive BettingType : Type := limitBetting | noLimitBetting.

(** The fields of the dealer's [Game] that [is_3p_kuhn_poker_game] reads;
    the per-round arrays have a fixed size. *)
Record Game : Type := {
  bettingType : BettingType;
  numRounds : nat;
  maxRaises : nat -> nat;       (* uint8_t maxRaises[MAX_ROUNDS] *)
  numSuits : nat;
  numRanks : nat;
  numHoleCards : nat;
  numBoardCards : nat -> nat;   (* uint8_t numBoardCards[MAX_ROUNDS] *)
  numPlayers : nat
}.

Definition is_limit (b : BettingType) : bool :=
  match b with limitBetting => true | noLimitBetting => false end.

Definition is_3p_kuhn_poker_game (game_def : Game) : bool :=
  is_limit (bettingType game_def) &&
  (numRounds game_def =? 1)%nat && (maxRaises game_def 0 =? 1)%nat &&
  (numSuits game_def =? 1)%nat && (numRanks game_def =? 4)%nat &&
  (numHoleCards game_def =? 1)%nat &&
  (numBoardCards game_def 0 =? 0)%nat &&
  (numPlayers game_def =? 3)%nat.

Definition err_non_kuhn_game : string :=
  "kuhn_3p_equilibrium_player used in non-Kuhn game" ++ nl.

(** The loop of [init_private_info] that copies the caller's array, from
    slot [i], with [n] iterations left.  The caller's array is read at every
    index below [NUM_PARAMS]; a read past its end has no defined value, and
    the copy has no result. *)
Fixpoint copy_params (src : list double) (n i : nat) (dst : list double)
  : option (list double) :=
  match n with
  | O => Some dst
  | S n' => x ← src !! i; copy_params src n' (S i) (<[i := x]> dst)
  end.

(** [init_private_info]: [None] when the caller's array is read past its
    end; otherwise the player, or the message of the error thrown.  The
    fields [game_def] and [get_action_rng] of the player are not modelled. *)
Definition init_private_info `{ParamLayout}
    (game_def : Game) (params_in : list double) (seed_in : Z)
  : option (outcome kuhn_3p_equilibrium_player_t) :=
  if negb (is_3p_kuhn_poker_game game_def)
  then Some (Thrown err_non_kuhn_game)
  else
    p ← copy_params params_in NUM_PARAMS 0 (replicate NUM_PARAMS 0);
    match check_params {| params := p; seed := seed_in |} with
    | (player, Returned _) => Some (Returned player)
    | (_, Thrown message) => Some (Thrown message)   (* Catch(e) { Throw(e); } *)
    end.

(** The game of the player: three-player Kuhn poker. *)
Definition kuhn_3p_game : Game := {|
  bettingType := limitBetting;
  numRounds := 1;
  maxRaises := fun round => if (round =? 0)%nat then 1%nat else 0%nat;
  numSuits := 1;
  numRanks := 4;
  numHoleCards := 1;
  numBoardCards := fun _ => 0%nat;
  numPlayers := 3
|}.

(** The same game with two players. *)
Definition two_player_game : Game := {|
  bettingType := limitBetting;
  numRounds := 1;
  maxRaises := fun round => if (round =? 0)%nat then 1%nat else 0%nat;
  numSuits := 1;
  numRanks := 4;
  numHoleCards := 1;
  numBoardCards := fun _ => 0%nat;
  numPlayers := 2
|}.

(** ** Vocabulary of the order lemmas *)

(** The value of the positive binary64 number [m * 2 ^ e], in units of
    [2 ^ -1074], the smallest positive binary64 number. *)
Definition scaled_value (m : positive) (e : Z) : Z := (Zpos m * 2 ^ (e + 1074))%Z.

(** ** Vocabulary of the sampler on the engines' vectors *)

(** The two shapes of vector that the decision engines store, for an entry
    [p] of a table or of the parameter vector. *)
Definition engine_vector (v : list double) : Prop :=
  exists p : double,
    in_range 0 1 p = true /\ (v = [1 - p; p; 0] \/ v = [0; 1 - p; p]).

(** A draw of [genrand_real2], a double in [[0, 1)]. *)
Definition is_draw (r : double) : bool := dle 0 r && dlt r 1.

(** ** Vocabulary of the arithmetic on the parameters *)

(** The value of a non-negative binary64 number, a zero or a positive
    number, in units of [2 ^ -1074]. *)
Definition nonneg_value (x : spec_float) : option Z :=
  match x with
  | S754_zero _ => Some 0%Z
  | S754_finite false m e =>
      if bounded prec emax m e then Some (scaled_value m e) else None
  | _ => None
  end.

(** The binary64 number 2. *)
Definition SF_two : spec_float := S754_finite false 4503599627370496 (-51).

(** ** More data for the sampler *)


(** * Properties *)

(** Membership in a list that is written out. *)
Ltac in_list :=
  repeat (apply elem_of_cons; first [left; reflexivity | right]).

(** ** Comparisons of doubles *)

Lemma SFcompare_swap (x y : spec_float) :
  SFcompare y x = option_map CompOpp (SFcompare x y).
Proof.
  destruct x as [sx|sx| |sx mx ex], y as [sy|sy| |sy my ey]; simpl;
    try destruct sx; try destruct sy; simpl; try reflexivity.
  - rewrite (Z.compare_antisym ey ex).
    destruct (ey ?= ex)%Z; simpl; try reflexivity.
    rewrite CompOpp_involutive. f_equal.
    exact (Pos.compare_cont_antisym my mx Eq).
  - rewrite (Z.compare_antisym ey ex).
    destruct (ey ?= ex)%Z; simpl; try reflexivity.
    f_equal. exact (eq_sym (Pos.compare_cont_antisym mx my Eq)).
Qed.

(** The comparison operators in terms of the three-way comparison. *)
Lemma dle_compare x y :
  dle x y = match SFcompare (Prim2SF x) (Prim2SF y) with
            | Some (Lt | Eq) => true | _ => false end.
Proof. unfold dle. rewrite FloatAxioms.leb_spec. reflexivity. Qed.

Lemma dlt_compare x y :
  dlt x y = match SFcompare (Prim2SF x) (Prim2SF y) with
            | Some Lt => true | _ => false end.
Proof. unfold dlt. rewrite FloatAxioms.ltb_spec. reflexivity. Qed.

Lemma dgt_compare x y :
  dgt x y = match SFcompare (Prim2SF x) (Prim2SF y) with
            | Some Gt => true | _ => false end.
Proof.
  unfold dgt. rewrite FloatAxioms.ltb_spec. unfold SFltb. rewrite SFcompare_swap.
  destruct (SFcompare (Prim2SF x) (Prim2SF y)) as [[]|]; reflexivity.
Qed.

Lemma dge_compare x y :
  dge x y = match SFcompare (Prim2SF x) (Prim2SF y) with
            | Some (Gt | Eq) => true | _ => false end.
Proof.
  unfold dge. rewrite FloatAxioms.leb_spec. unfold SFleb. rewrite SFcompare_swap.
  destruct (SFcompare (Prim2SF x) (Prim2SF y)) as [[]|]; reflexivity.
Qed.

Lemma deq_compare x y :
  deq x y = match SFcompare (Prim2SF x) (Prim2SF y) with
            | Some Eq => true | _ => false end.
Proof. unfold deq. rewrite FloatAxioms.eqb_spec. reflexivity. Qed.

(** Rewrites every comparison of the goal into a [match] on [SFcompare]. *)
Ltac to_compare :=
  rewrite ?dle_compare, ?dlt_compare, ?dgt_compare, ?dge_compare, ?deq_compare in *.

Lemma dle_not_dgt x y : dle x y = true -> dgt x y = false.
Proof.
  to_compare. destruct (SFcompare (Prim2SF x) (Prim2SF y)) as [[]|]; congruence.
Qed.

Lemma dge_not_dlt x y : dge x y = true -> dlt x y = false.
Proof.
  to_compare. destruct (SFcompare (Prim2SF x) (Prim2SF y)) as [[]|]; congruence.
Qed.

Lemma dgt_not_deq x y : dgt x y = true -> deq x y = false.
Proof.
  to_compare. destruct (SFcompare (Prim2SF x) (Prim2SF y)) as [[]|]; congruence.
Qed.

Lemma dlt_not_deq x y : dlt x y = true -> deq x y = false.
Proof.
  to_compare. destruct (SFcompare (Prim2SF x) (Prim2SF y)) as [[]|]; congruence.
Qed.

Lemma dlt_not_dgt x y : dlt x y = true -> dgt x y = false.
Proof.
  to_compare. destruct (SFcompare (Prim2SF x) (Prim2SF y)) as [[]|]; congruence.
Qed.


Lemma is_number_spec x : is_number x = true <-> Prim2SF x <> S754_nan.
Proof.
  unfold is_number, is_nan. rewrite FloatAxioms.eqb_spec. unfold SFeqb.
  pose proof (Prim2SF_valid x) as V.
  destruct (Prim2SF x) as [s|s| |s m e] eqn:E; simpl.
  - split; [discriminate | reflexivity ].
  - destruct s; simpl; (split; [discriminate | reflexivity ]).
  - split; [discriminate | congruence ].
  - destruct s; simpl;
      rewrite Z.compare_refl,
        (Pos.compare_cont_refl m Eq : PosDef.Pos.compare_cont Eq m m = Eq); simpl;
      (split; [discriminate | reflexivity ]).
Qed.

(** ** Sub-family classifier *)

Lemma Prim2SF_zero : Prim2SF 0 = S754_zero false.
Proof. reflexivity. Qed.

Lemma Prim2SF_half : Prim2SF 0.5 = S754_finite false 4503599627370496 (-53).
Proof. reflexivity. Qed.

Lemma Prim2SF_one : Prim2SF 1 = S754_finite false 4503599627370496 (-52).
Proof. reflexivity. Qed.

(** Case analysis on the class of a double under comparison with constants,
    without computing on the mantissa of the constants. *)
Ltac sf_cases c :=
  destruct (Prim2SF c) as [s|s| |s m e]; cbn [SFcompare];
  try destruct s; cbv beta iota;
  first [reflexivity | intros; discriminate].

(** A double equal to 0 (either zero) is not equal to 1/2, and conversely. *)
Lemma deq_zero_not_half c : deq c 0 = true -> deq c 0.5 = false.
Proof.
  to_compare. rewrite Prim2SF_zero, Prim2SF_half.
  sf_cases c.
Qed.

Lemma deq_half_not_zero c : deq c 0.5 = true -> deq c 0 = false.
Proof.
  intros H. destruct (deq c 0) eqn:E; [|reflexivity].
  apply deq_zero_not_half in E. congruence.
Qed.

Lemma dgt_half_not_zero c : dgt c 0.5 = true -> deq c 0 = false.
Proof.
  to_compare. rewrite Prim2SF_zero, Prim2SF_half.
  sf_cases c.
Qed.

(** A negative double is neither 0, nor 1/2, nor above 1/2. *)
Lemma dlt_zero_not_zero c : dlt c 0 = true -> deq c 0 = false.
Proof. apply dlt_not_deq. Qed.

Lemma dlt_zero_not_half c : dlt c 0 = true -> deq c 0.5 = false.
Proof.
  to_compare. rewrite Prim2SF_zero, Prim2SF_half.
  sf_cases c.
Qed.

Lemma dlt_zero_not_above_half c : dlt c 0 = true -> dgt c 0.5 = false.
Proof.
  to_compare. rewrite Prim2SF_zero, Prim2SF_half.
  sf_cases c.
Qed.

(** [sub_family_number] as the chain of tests it performs. *)
Lemma sub_family_number_eq c11 :
  sub_family_number c11 =
    if deq c11 0 then 1%nat
    else if deq c11 0.5 then 2%nat
    else if dgt c11 0.5 then ILLEGAL_SUB_FAMILY
    else 3%nat.
Proof.
  unfold sub_family_number, ILLEGAL_SUB_FAMILY, NUM_SUB_FAMILIES.
  cbn [sub_family_scan Nat.sub Nat.add].
  change (SUB_FAMILY_DEFINING_PARAM_VALUES !!! 0%nat) with 0%float.
  change (SUB_FAMILY_DEFINING_PARAM_VALUES !!! 1%nat) with 0.5%float.
  destruct (deq c11 0), (deq c11 0.5), (dgt c11 0.5); reflexivity.
Qed.

(** C3.  The classifier returns 1 when c11 equals 0, 2 when c11 equals 1/2,
    the out-of-range identifier [NUM_SUB_FAMILIES + 1] when c11 is greater
    than 1/2, and 3 in every other case; 0.0, 0.5, 0.25 and 0.75 are
    classified as 1, 2, 3 and out of range. *)
Theorem sub_family_number_spec :
  forall c11 : double,
    (deq c11 0 = true -> sub_family_number c11 = 1%nat) /\
    (deq c11 0.5 = true -> sub_family_number c11 = 2%nat) /\
    (dgt c11 0.5 = true -> sub_family_number c11 = ILLEGAL_SUB_FAMILY) /\
    (deq c11 0 = false -> deq c11 0.5 = false -> dgt c11 0.5 = false ->
       sub_family_number c11 = 3%nat) /\
    sub_family_number 0.0 = 1%nat /\
    sub_family_number 0.5 = 2%nat /\
    sub_family_number 0.25 = 3%nat /\
    sub_family_number 0.75 = ILLEGAL_SUB_FAMILY /\
    ILLEGAL_SUB_FAMILY ∉ [1%nat; 2%nat; 3%nat].
Proof.
  intros c11. rewrite sub_family_number_eq.
  repeat split.
  - intros ->. reflexivity.
  - intros H. rewrite (deq_half_not_zero _ H), H. reflexivity.
  - intros H. rewrite (dgt_half_not_zero _ H), (dgt_not_deq _ _ H), H. reflexivity.
  - intros -> -> ->. reflexivity.
  - vm_compute. intros H.
    repeat (apply elem_of_cons in H as [H|H]; [discriminate H|]). inversion H.
Qed.

(** ** Parameter validator and derivor *)

(** One step of a computation over the player. *)
Lemma run_load {X} (i : nat) (k : double -> M X) pl :
  (load i ≫= k) pl = k (params pl !!! i) pl.
Proof. reflexivity. Qed.

Lemma run_throw_if {X} (c : bool) (msg : string) (k : unit -> M X) pl :
  (throw_if c msg ≫= k) pl = if c then (pl, Thrown msg) else k tt pl.
Proof. destruct c; reflexivity. Qed.

Lemma run_store {X} (i : nat) (v : double) (k : unit -> M X) pl :
  (store i v ≫= k) pl = k tt (with_params pl (<[i := v]> (params pl))).
Proof. reflexivity. Qed.

Lemma run_store_last (i : nat) (v : double) pl :
  store i v pl = (with_params pl (<[i := v]> (params pl)), Returned tt).
Proof. reflexivity. Qed.

Ltac run_M :=
  repeat first [rewrite run_load | rewrite run_store | rewrite run_throw_if
               | rewrite run_store_last];
  cbv beta.

Section ValidatorFacts.
Context `{L : ParamLayout}.

(** [check_family_1_params] as the chain of its five tests, followed by
    the four stores. *)
Lemma check_family_1_params_eq pl :
  check_family_1_params pl =
    let p := params pl in
    if violated p b21_le_quarter then (pl, Thrown err_b21_too_large)
    else if violated p b11_le_b21 then (pl, Thrown err_b11_gt_b21)
    else if violated p b32_upper then (pl, Thrown err_b32_too_large)
    else if violated p c33_lower then (pl, Thrown err_c33_too_small)
    else if violated p c33_upper then (pl, Thrown err_c33_too_large)
    else (with_params pl (after_stores p), Returned tt).
Proof.
  unfold check_family_1_params, violated. run_M.
  repeat match goal with
         | |- context [if ?c then _ else _] => destruct c
         end; reflexivity.
Qed.

(** The final pass never stores, and throws as soon as a slot is out of
    range. *)
Lemma check_range_loop_eq n i pl :
  check_range_loop n i pl =
    (pl, if existsb (fun k => out_of_range 0 1 (params pl !!! k)) (seq i n)
         then Thrown err_param_range else Returned tt).
Proof.
  revert i. induction n as [|n IH]; intros i; [reflexivity|].
  cbn [check_range_loop seq existsb]. run_M.
  fold (out_of_range 0 1 (params pl !!! i)).
  destruct (out_of_range 0 1 (params pl !!! i)); [reflexivity|].
  rewrite IH. reflexivity.
Qed.

Lemma check_params_eq pl :
  check_params pl =
    match sub_family_number (params pl !!! C11_INDEX) with
    | 1%nat =>
        match check_family_1_params pl with
        | (pl', Returned _) => check_range_loop NUM_PARAMS 0 pl'
        | (pl', Thrown msg) => (pl', Thrown msg)
        end
    | 2%nat | 3%nat => check_range_loop NUM_PARAMS 0 pl
    | _ => (pl, Thrown err_c11_out_of_range)
    end.
Proof.
  unfold check_params, SUB_FAMILY_DEFINING_PARAM_INDEX. run_M.
  destruct (sub_family_number (params pl !!! C11_INDEX)) as [|[|[|[|k]]]];
    reflexivity.
Qed.

End ValidatorFacts.

Section LayoutFacts.
Context `{L : ParamLayout}.
Hypothesis HL : layout_ok L = true.

Lemma layout_NoDup : NoDup (free_indices ++ derived_indices)%list.
Proof.
  unfold layout_ok in HL. apply andb_true_iff in HL as [H _].
  by apply bool_decide_eq_true in H.
Qed.

Lemma layout_bound i : i ∈ (free_indices ++ derived_indices)%list -> i < NUM_PARAMS.
Proof.
  unfold layout_ok in HL. apply andb_true_iff in HL as [_ H].
  rewrite forallb_forall in H. intros Hi.
  apply Nat.ltb_lt, H, list_elem_of_In, Hi.
Qed.

(** The free indices are not derived indices. *)
Lemma free_not_derived i : i ∈ free_indices -> i ∉ derived_indices.
Proof.
  intros Hf Hd. pose proof layout_NoDup as ND.
  apply NoDup_app in ND as (_ & ND & _). exact (ND i Hf Hd).
Qed.

Lemma derived_NoDup : NoDup derived_indices.
Proof. pose proof layout_NoDup as ND. by apply NoDup_app in ND as (_ & _ & ND). Qed.

Variable p : list double.
Hypothesis Hp : length p = NUM_PARAMS.

Lemma length_with_derived : length (with_derived p) = NUM_PARAMS.
Proof. unfold with_derived. by rewrite !length_insert. Qed.

(** A slot that is not a derived one is left as it was. *)
Lemma with_derived_other i : i ∉ derived_indices -> with_derived p !!! i = p !!! i.
Proof.
  unfold derived_indices, with_derived. rewrite !not_elem_of_cons.
  intros (H1 & H2 & H3 & H4 & _).
  rewrite !list_lookup_total_insert_ne by congruence. reflexivity.
Qed.

(** The value of each derived slot. *)
Lemma with_derived_slots :
  with_derived p !!! B23_INDEX = b23_closed_form /\
  with_derived p !!! B33_INDEX = b33_closed_form p /\
  with_derived p !!! B41_INDEX = b41_closed_form p /\
  with_derived p !!! C21_INDEX = c21_closed_form.
Proof.
  pose proof derived_NoDup as ND. unfold derived_indices in ND.
  rewrite !NoDup_cons, !not_elem_of_cons in ND.
  destruct ND as ((n1 & n2 & n3 & _) & (n4 & n5 & _) & (n6 & _) & _).
  assert (B23_INDEX < length p /\ B33_INDEX < length p /\
          B41_INDEX < length p /\ C21_INDEX < length p) as (l1 & l2 & l3 & l4).
  { rewrite Hp. repeat split; apply layout_bound;
      unfold free_indices, derived_indices; cbn [app]; in_list. }
  unfold with_derived. repeat split.
  - rewrite !list_lookup_total_insert_ne by congruence.
    by rewrite list_lookup_total_insert_eq.
  - rewrite !list_lookup_total_insert_ne by congruence.
    by rewrite list_lookup_total_insert_eq by (by rewrite !length_insert).
  - rewrite !list_lookup_total_insert_ne by congruence.
    by rewrite list_lookup_total_insert_eq by (by rewrite !length_insert).
  - by rewrite list_lookup_total_insert_eq by (by rewrite !length_insert).
Qed.

(** The four stores of [check_family_1_params] read the free slots b11 and
    b21 only, which the earlier stores have not changed. *)
Lemma stores_are_with_derived : after_stores p = with_derived p.
Proof.
  assert ((B11_INDEX ∉ derived_indices) /\ (B21_INDEX ∉ derived_indices)) as [f1 f2].
  { split; apply free_not_derived; unfold free_indices; in_list. }
  unfold derived_indices in f1, f2. rewrite !not_elem_of_cons in f1, f2.
  destruct f1 as (a1 & a2 & a3 & a4 & _), f2 as (c1 & c2 & c3 & c4 & _).
  unfold after_stores. cbv zeta.
  rewrite !list_lookup_total_insert_ne by congruence. reflexivity.
Qed.

End LayoutFacts.

(** ** Sub-family 1: order of the checks *)

Lemma error_of_inj i j : error_of j = error_of i -> j = i.
Proof. destruct i, j; intros H; try reflexivity; vm_compute in H; discriminate H. Qed.

(** C2.  For a parameter vector of sub-family 1, the five inequalities are
    checked in the order (i) to (v): when an inequality is violated and none
    of the earlier ones is, validation ends at once with the error that names
    this inequality, a constraint violation, and the errors of distinct
    inequalities are distinct. *)
Theorem first_violated_inequality_is_reported :
  forall (L : ParamLayout) (pl : kuhn_3p_equilibrium_player_t) (i : inequality),
    sub_family_number (params pl !!! C11_INDEX) = 1%nat ->
    (forall j : inequality, j ∈ earlier i -> violated (params pl) j = false) ->
    violated (params pl) i = true ->
    check_family_1_params pl = (pl, Thrown (error_of i)) /\
    check_params pl = (pl, Thrown (error_of i)) /\
    is_constraint_violation (error_of i) = true /\
    (forall j : inequality, error_of j = error_of i -> j = i).
Proof.
  intros L pl i Hc11 Hearlier Hi.
  assert (check_family_1_params pl = (pl, Thrown (error_of i))) as E.
  { rewrite check_family_1_params_eq. cbv zeta.
    destruct i; cbn [earlier] in Hearlier;
      repeat match goal with
             | |- context [violated (params pl) ?j] =>
                 first [ rewrite Hi
                       | rewrite (Hearlier j) by (cbn [earlier]; in_list) ]
             end; reflexivity. }
  split; [exact E|]. split.
  - rewrite check_params_eq, Hc11, E. reflexivity.
  - split; [destruct i; reflexivity | apply error_of_inj].
Qed.

Ltac earlier_cases Hj :=
  cbn [earlier] in Hj;
  repeat (apply elem_of_cons in Hj as [->|Hj]; [reflexivity|]);
  inversion Hj.

Lemma first_violated_inequality_is_reported_witness :
  check_params (L := example_layout) (player_of (violating_example b21_le_quarter))
    = (player_of (violating_example b21_le_quarter), Thrown err_b21_too_large) /\
  check_params (L := example_layout) (player_of (violating_example b11_le_b21))
    = (player_of (violating_example b11_le_b21), Thrown err_b11_gt_b21) /\
  check_params (L := example_layout) (player_of (violating_example b32_upper))
    = (player_of (violating_example b32_upper), Thrown err_b32_too_large) /\
  check_params (L := example_layout) (player_of (violating_example c33_lower))
    = (player_of (violating_example c33_lower), Thrown err_c33_too_small) /\
  check_params (L := example_layout) (player_of (violating_example c33_upper))
    = (player_of (violating_example c33_upper), Thrown err_c33_too_large).
Proof.
  split; [|split; [|split; [|split]]].
  - apply (first_violated_inequality_is_reported example_layout
             (player_of (violating_example b21_le_quarter)) b21_le_quarter);
      [reflexivity | intros j Hj; earlier_cases Hj | reflexivity].
  - apply (first_violated_inequality_is_reported example_layout
             (player_of (violating_example b11_le_b21)) b11_le_b21);
      [reflexivity | intros j Hj; earlier_cases Hj | reflexivity].
  - apply (first_violated_inequality_is_reported example_layout
             (player_of (violating_example b32_upper)) b32_upper);
      [reflexivity | intros j Hj; earlier_cases Hj | reflexivity].
  - apply (first_violated_inequality_is_reported example_layout
             (player_of (violating_example c33_lower)) c33_lower);
      [reflexivity | intros j Hj; earlier_cases Hj | reflexivity].
  - apply (first_violated_inequality_is_reported example_layout
             (player_of (violating_example c33_upper)) c33_upper);
      [reflexivity | intros j Hj; earlier_cases Hj | reflexivity].
Defined.

(** ** What validation writes *)

Section Atomicity.
Context `{L : ParamLayout}.

(** [check_family_1_params] either throws a constraint violation and
    leaves the player as it was, or returns with the derived slots stored. *)
Lemma check_family_1_params_cases pl :
  (exists i, check_family_1_params pl = (pl, Thrown (error_of i))) \/
  check_family_1_params pl = (with_params pl (after_stores (params pl)), Returned tt).
Proof.
  rewrite check_family_1_params_eq. cbv zeta.
  destruct (violated (params pl) b21_le_quarter); [left; by exists b21_le_quarter|].
  destruct (violated (params pl) b11_le_b21); [left; by exists b11_le_b21|].
  destruct (violated (params pl) b32_upper); [left; by exists b32_upper|].
  destruct (violated (params pl) c33_lower); [left; by exists c33_lower|].
  destruct (violated (params pl) c33_upper); [left; by exists c33_upper|].
  right. reflexivity.
Qed.

Lemma not_constraint_violation_range : is_constraint_violation err_param_range = false.
Proof. reflexivity. Qed.

Lemma not_constraint_violation_c11 : is_constraint_violation err_c11_out_of_range = false.
Proof. reflexivity. Qed.

(** The tests of [check_family_1_params] depend on the slots b11, b21, b32
    and c33 only. *)
Lemma violated_reads_free_slots (p q : list double) :
  (forall i, i ∈ [B11_INDEX; B21_INDEX; B32_INDEX; C33_INDEX] -> p !!! i = q !!! i) ->
  forall i, violated p i = violated q i.
Proof.
  intros H i.
  assert (p !!! B11_INDEX = q !!! B11_INDEX) as E1 by (apply H; in_list).
  assert (p !!! B21_INDEX = q !!! B21_INDEX) as E2 by (apply H; in_list).
  assert (p !!! B32_INDEX = q !!! B32_INDEX) as E3 by (apply H; in_list).
  assert (p !!! C33_INDEX = q !!! C33_INDEX) as E4 by (apply H; in_list).
  destruct i; unfold violated; rewrite ?E1, ?E2, ?E3, ?E4; reflexivity.
Qed.

End Atomicity.

(** C10.  The five checks of sub-family 1 read the free slots b11, b21, b32
    and c33 only (two players that agree on them get the same outcome) and
    are over before any slot is written: when validation throws a constraint
    violation, the player is as it was.  Whatever the outcome of validation,
    the six free slots hold what they held. *)
Theorem validation_leaves_free_parameters :
  forall (L : ParamLayout) (pl pl' : kuhn_3p_equilibrium_player_t) (r : outcome unit),
    layout_ok L = true ->
    player_ok pl ->
    check_params pl = (pl', r) ->
    (forall msg, r = Thrown msg -> is_constraint_violation msg = true -> pl' = pl) /\
    (forall i, i ∈ free_indices -> params pl' !!! i = params pl !!! i) /\
    (forall ql : kuhn_3p_equilibrium_player_t,
       (forall i, i ∈ [B11_INDEX; B21_INDEX; B32_INDEX; C33_INDEX] ->
                  params ql !!! i = params pl !!! i) ->
       (check_family_1_params ql).2 = (check_family_1_params pl).2).
Proof.
  intros L pl pl' r HL Hpl E.
  rewrite check_params_eq in E.
  split; [|split].
  - intros msg -> Hmsg.
    assert (forall ql, check_range_loop NUM_PARAMS 0 ql = (pl', Thrown msg) -> pl' = pl)
      as Hloop.
    { intros ql Eq. rewrite check_range_loop_eq in Eq. inversion Eq as [[E1 E2]].
      destruct (existsb _ _) in E2; inversion E2; subst.
      rewrite not_constraint_violation_range in Hmsg. discriminate Hmsg. }
    destruct (sub_family_number (params pl !!! C11_INDEX)) as [|[|[|[|k]]]].
    + inversion E; subst.
      rewrite not_constraint_violation_c11 in Hmsg. discriminate Hmsg.
    + destruct (check_family_1_params_cases pl) as [[i Ei]|Ei]; rewrite Ei in E.
      * by inversion E.
      * by apply Hloop in E.
    + by apply Hloop in E.
    + by apply Hloop in E.
    + inversion E; subst.
      rewrite not_constraint_violation_c11 in Hmsg. discriminate Hmsg.
  - intros i Hi.
    destruct (sub_family_number (params pl !!! C11_INDEX)) as [|[|[|[|k]]]].
    + by inversion E.
    + destruct (check_family_1_params_cases pl) as [[j Ej]|Ej]; rewrite Ej in E.
      * by inversion E.
      * rewrite check_range_loop_eq in E. inversion E as [[E1 E2]].
        subst pl'. cbn [params with_params].
        rewrite (stores_are_with_derived HL).
        apply with_derived_other, (free_not_derived HL), Hi.
    + rewrite check_range_loop_eq in E. by inversion E.
    + rewrite check_range_loop_eq in E. by inversion E.
    + by inversion E.
  - intros ql Hagree.
    rewrite !check_family_1_params_eq. cbv zeta.
    rewrite !(violated_reads_free_slots (params ql) (params pl) Hagree).
    repeat match goal with
           | |- context [if ?c then _ else _] => destruct c
           end; reflexivity.
Qed.

Lemma validation_leaves_free_parameters_witness :
  check_params (L := example_layout) example_player = (example_validated, Returned tt) /\
  params example_validated !!! 5%nat = params example_player !!! 5%nat /\
  (check_family_1_params (L := example_layout) example_validated).2 =
    (check_family_1_params (L := example_layout) example_player).2.
Proof.
  pose proof (validation_leaves_free_parameters example_layout
                example_player example_validated (Returned tt)
                eq_refl eq_refl eq_refl) as (_ & Hfree & Hreads).
  split; [reflexivity|]. split.
  - apply (Hfree 5%nat). unfold free_indices. cbn. in_list.
  - apply (Hreads example_validated). intros i Hi. cbn in Hi.
    repeat (apply elem_of_cons in Hi as [->|Hi]; [reflexivity|]).
    inversion Hi.
Defined.

(** ** The distinguished parameter outside [0, 1/2] *)

Lemma existsb_seq_here (f : nat -> bool) (n i : nat) :
  i < n -> f i = true -> existsb f (seq 0 n) = true.
Proof.
  intros Hi Hf. apply existsb_exists. exists i. split; [|exact Hf].
  apply in_seq. lia.
Qed.

(** C7.  What [check_params] does with c11 outside [0, 1/2]: above 1/2 it
    throws the classification error at once and the player is untouched;
    below 0 the classifier answers 3, no classification error is thrown, and
    it is the final pass that throws, with the range error. *)
Theorem check_params_c11_outside :
  forall (L : ParamLayout) (pl : kuhn_3p_equilibrium_player_t),
    layout_ok L = true ->
    player_ok pl ->
    (dgt (params pl !!! C11_INDEX) 0.5 = true ->
       check_params pl = (pl, Thrown err_c11_out_of_range)) /\
    (dlt (params pl !!! C11_INDEX) 0 = true ->
       sub_family_number (params pl !!! C11_INDEX) = 3%nat /\
       check_params pl = (pl, Thrown err_param_range)) /\
    err_param_range <> err_c11_out_of_range.
Proof.
  intros L pl HL Hpl. split; [|split].
  - intros H.
    rewrite check_params_eq, sub_family_number_eq,
      (dgt_half_not_zero _ H), (dgt_not_deq _ _ H), H.
    reflexivity.
  - intros H.
    assert (sub_family_number (params pl !!! C11_INDEX) = 3%nat) as E.
    { rewrite sub_family_number_eq.
      by rewrite (dlt_zero_not_zero _ H), (dlt_zero_not_half _ H),
        (dlt_zero_not_above_half _ H). }
    split; [exact E|].
    rewrite check_params_eq, E, check_range_loop_eq.
    rewrite (existsb_seq_here _ NUM_PARAMS C11_INDEX); [reflexivity| |].
    + apply (layout_bound HL). unfold free_indices. in_list.
    + unfold out_of_range. by rewrite H.
  - intros E. vm_compute in E. discriminate E.
Qed.

Lemma check_params_c11_outside_witness :
  check_params (L := example_layout) (player_of large_c11_params)
    = (player_of large_c11_params, Thrown err_c11_out_of_range) /\
  check_params (L := example_layout) (player_of negative_c11_params)
    = (player_of negative_c11_params, Thrown err_param_range).
Proof.
  split.
  - apply (check_params_c11_outside example_layout (player_of large_c11_params));
      reflexivity.
  - apply (check_params_c11_outside example_layout (player_of negative_c11_params));
      reflexivity.
Defined.

(** ** The final range pass *)

(** A NaN is neither below 0 nor above 1, and is not in [0, 1]. *)
Lemma is_nan_Prim2SF x : is_nan x = true <-> Prim2SF x = S754_nan.
Proof.
  pose proof (is_number_spec x) as H. unfold is_number in H.
  destruct (is_nan x); cbn [negb] in H.
  - split; [intros _|reflexivity].
    destruct (Prim2SF x) eqn:E; try reflexivity; exfalso;
      (assert (false = true) as F by (apply H; discriminate); discriminate F).
  - split; [discriminate|]. intros E. exfalso.
    destruct H as [H _]. by apply H.
Qed.

Lemma nan_not_out_of_range lo hi x : is_nan x = true -> out_of_range lo hi x = false.
Proof.
  intros H. apply is_nan_Prim2SF in H. unfold out_of_range. to_compare.
  rewrite H. simpl. by destruct (Prim2SF lo), (Prim2SF hi).
Qed.

Lemma nan_not_in_range lo hi x : is_nan x = true -> in_range lo hi x = false.
Proof.
  intros H. apply is_nan_Prim2SF in H. unfold in_range. to_compare.
  rewrite H. simpl. by destruct (Prim2SF lo), (Prim2SF hi).
Qed.

(** Two numbers are comparable. *)
Lemma SFcompare_total (a b : spec_float) :
  a <> S754_nan -> b <> S754_nan -> exists c, SFcompare a b = Some c.
Proof.
  intros Ha Hb. destruct a, b; try congruence; cbn [SFcompare]; eauto.
Qed.

(** A number that is not outside [lo, hi] is inside. *)
Lemma number_in_or_out lo hi x :
  is_number lo = true -> is_number hi = true -> is_number x = true ->
  out_of_range lo hi x = false -> in_range lo hi x = true.
Proof.
  rewrite !is_number_spec. unfold out_of_range, in_range. to_compare.
  intros Hlo Hhi Hx.
  rewrite (SFcompare_swap (Prim2SF x) (Prim2SF lo)).
  destruct (SFcompare_total _ _ Hx Hlo) as [c1 ->].
  destruct (SFcompare_total _ _ Hx Hhi) as [c2 ->].
  destruct c1, c2; cbn; congruence.
Qed.

(** A double inside [lo, hi] is not outside. *)
Lemma in_range_not_out lo hi x : in_range lo hi x = true -> out_of_range lo hi x = false.
Proof.
  unfold in_range, out_of_range. intros H. apply andb_true_iff in H as [H1 H2].
  change (dle lo x) with (dge x lo) in H1.
  by rewrite (dge_not_dlt _ _ H1), (dle_not_dgt _ _ H2).
Qed.

Lemma existsb_seq_false (f : nat -> bool) (n : nat) :
  existsb f (seq 0 n) = false <-> forall i, i < n -> f i = false.
Proof.
  split.
  - intros H i Hi. destruct (f i) eqn:E; [|reflexivity].
    rewrite (existsb_seq_here f n i Hi E) in H. discriminate H.
  - intros H. destruct (existsb f (seq 0 n)) eqn:E; [|reflexivity].
    apply existsb_exists in E as (i & Hi & Hf). apply in_seq in Hi.
    rewrite H in Hf by lia. discriminate Hf.
Qed.

Section RangePass.
Context `{L : ParamLayout}.

Lemma check_params_after_family_checks pl pl1 :
  family_checks_pass pl pl1 ->
  check_params pl = check_range_loop NUM_PARAMS 0 pl1.
Proof.
  intros [[E1 E2]|[[E|E] ->]]; rewrite check_params_eq.
  - by rewrite E1, E2.
  - by rewrite E.
  - by rewrite E.
Qed.

Lemma check_params_returned pl pl' :
  check_params pl = (pl', Returned tt) ->
  family_checks_pass pl pl' /\
  existsb (fun k => out_of_range 0 1 (params pl' !!! k)) (seq 0 NUM_PARAMS) = false.
Proof.
  rewrite check_params_eq. unfold family_checks_pass.
  destruct (sub_family_number (params pl !!! C11_INDEX)) as [|[|[|[|k]]]];
    try discriminate.
  - destruct (check_family_1_params pl) as [pl1 [[]|msg]] eqn:E1; [|discriminate].
    rewrite check_range_loop_eq.
    destruct (existsb _ _) eqn:Ex; [discriminate|].
    intros [= <-]. split; [by left | exact Ex].
  - rewrite check_range_loop_eq.
    destruct (existsb _ _) eqn:Ex; [discriminate|].
    intros [= <-]. split; [right; split; [by left | reflexivity] | exact Ex].
  - rewrite check_range_loop_eq.
    destruct (existsb _ _) eqn:Ex; [discriminate|].
    intros [= <-]. split; [right; split; [by right | reflexivity] | exact Ex].
Qed.

End RangePass.

(** C8.  After the sub-family checks, the final pass throws the range error
    if a slot is below 0 or above 1.  It does not follow that every slot of
    a validated vector lies in [0, 1]: a slot that holds a NaN is neither
    below 0 nor above 1, so a vector of sub-family 2 or 3 with such a slot,
    its other slots in [0, 1], is validated, and that slot is not in
    [0, 1]. *)
Theorem check_params_accepts_nan :
  forall (L : ParamLayout) (pl : kuhn_3p_equilibrium_player_t) (k : nat),
    player_ok pl ->
    sub_family_number (params pl !!! C11_INDEX) = 2%nat \/
    sub_family_number (params pl !!! C11_INDEX) = 3%nat ->
    (k < NUM_PARAMS)%nat ->
    is_nan (params pl !!! k) = true ->
    (forall i, (i < NUM_PARAMS)%nat -> i <> k -> in_range 0 1 (params pl !!! i) = true) ->
    check_params pl = (pl, Returned tt) /\
    in_range 0 1 (params pl !!! k) = false.
Proof.
  intros L pl k Hpl Hfam Hk Hnan Hothers.
  split; [|by apply nan_not_in_range].
  rewrite (check_params_after_family_checks pl pl) by (right; by split).
  rewrite check_range_loop_eq.
  replace (existsb _ _) with false; [reflexivity|].
  symmetry. apply existsb_seq_false. intros i Hi.
  destruct (decide (i = k)) as [->|Hne].
  - by apply nan_not_out_of_range.
  - by apply in_range_not_out, Hothers.
Qed.

Lemma check_params_accepts_nan_witness :
  check_params (L := example_layout) (player_of nan_c34_params)
    = (player_of nan_c34_params, Returned tt) /\
  in_range 0 1 (nan_c34_params !!! 5%nat) = false.
Proof.
  apply (check_params_accepts_nan example_layout (player_of nan_c34_params) 5%nat).
  - reflexivity.
  - left. reflexivity.
  - cbn. lia.
  - reflexivity.
  - intros i Hi Hne. cbn in Hi.
    do 10 (destruct i as [|i]; [first [reflexivity | congruence]|]).
    lia.
Defined.

(** ** Seat decision engines *)

Lemma set_probs_triple (probs : list double) (f c r : double) :
  length probs = NUM_ACTION_TYPES -> set_probs probs f c r = [f; c; r].
Proof.
  destruct probs as [|x0 [|x1 [|x2 [|x3 probs]]]]; try discriminate.
  reflexivity.
Qed.

(** C9.  The first seat: with no prior action of round 0 (situation 1) the
    vector is fold 0, call 1 - A[rank][0], raise A[rank][0]; otherwise the
    situation is 2 when the second recorded action is a call, 3 when the third
    is a fold and 4 in the remaining case, and the vector is
    fold 1 - A[rank][situation - 1], call A[rank][situation - 1], raise 0.
    The row of [A] is that of the card rank, counted from the Jack. *)
Theorem action_probs_p0_spec :
  forall (T : StrategyTables) (card_rank : Z) (state : State)
         (probs : list double) (a : double),
    length probs = NUM_ACTION_TYPES ->
    A_at (card_rank - JACK_RANK) (seat0_situation state - 1) = Some a ->
    action_probs_p0 card_rank state probs =
      Some (if (seat0_situation state =? 1)%nat
            then [0; 1 - a; a]
            else [1 - a; a; 0]) /\
    (numActions state 0 = 0%nat -> seat0_situation state = 1%nat) /\
    (numActions state 0 <> 0%nat -> type (action_ state 0 1) = a_call ->
       seat0_situation state = 2%nat) /\
    (numActions state 0 <> 0%nat -> type (action_ state 0 1) <> a_call ->
       type (action_ state 0 2) = a_fold -> seat0_situation state = 3%nat) /\
    (numActions state 0 <> 0%nat -> type (action_ state 0 1) <> a_call ->
       type (action_ state 0 2) <> a_fold -> seat0_situation state = 4%nat).
Proof.
  intros T card_rank state probs a Hlen Ha.
  split.
  - unfold action_probs_p0, seat0_situation in *.
    destruct (numActions state 0 =? 0)%nat.
    + cbn [Nat.sub] in Ha. rewrite Ha. cbn [mbind option_bind].
      by rewrite set_probs_triple.
    + rewrite (Nat.eqb_sym a_call), (Nat.eqb_sym a_fold).
      destruct (type (action_ state 0 1) =? a_call)%nat;
        [|destruct (type (action_ state 0 2) =? a_fold)%nat];
        cbn [Nat.sub] in Ha; rewrite Ha; cbn [mbind option_bind];
        by rewrite set_probs_triple.
  - unfold seat0_situation. repeat split.
    + by intros ->.
    + intros H0 H1. apply Nat.eqb_neq in H0. apply Nat.eqb_eq in H1.
      by rewrite H0, H1.
    + intros H0 H1 H2. apply Nat.eqb_neq in H0, H1. apply Nat.eqb_eq in H2.
      by rewrite H0, H1, H2.
    + intros H0 H1 H2. apply Nat.eqb_neq in H0, H1, H2.
      by rewrite H0, H1, H2.
Qed.

Lemma action_probs_p0_spec_witness :
  action_probs_p0 (T := example_tables) 9 (history []) [0; 0; 0]
    = Some [0; 1 - 0; 0] /\
  action_probs_p0 (T := example_tables) 11 (history [a_call; a_call; a_raise])
    [0; 0; 0] = Some [1 - 0; 0; 0] /\
  action_probs_p0 (T := example_tables) 11 (history [a_call; a_raise; a_fold])
    [0; 0; 0] = Some [1 - 0.5; 0.5; 0] /\
  action_probs_p0 (T := example_tables) 12 (history [a_call; a_raise; a_call])
    [0; 0; 0] = Some [1 - 1; 1; 0].
Proof.
  split; [|split; [|split]].
  - apply (action_probs_p0_spec example_tables 9 (history []) [0; 0; 0] 0);
      reflexivity.
  - apply (action_probs_p0_spec example_tables 11
             (history [a_call; a_call; a_raise]) [0; 0; 0] 0); reflexivity.
  - apply (action_probs_p0_spec example_tables 11
             (history [a_call; a_raise; a_fold]) [0; 0; 0] 0.5); reflexivity.
  - apply (action_probs_p0_spec example_tables 12
             (history [a_call; a_raise; a_call]) [0; 0; 0] 1); reflexivity.
Defined.

(** ** Action sampler *)

(** C5.  On the vector (0, 0.3, 0.7) the walk selects call for the draw 0.2
    and raise for the draw 0.9.  For the draw 0.0 it stops at the first
    entry, since 0.0 <= 0.0 holds: it selects fold, not call. *)
Theorem sample_on_boundary_draw :
  type (sample [0.0; 0.3; 0.7] 0.2) = a_call /\
  type (sample [0.0; 0.3; 0.7] 0.9) = a_raise /\
  type (sample [0.0; 0.3; 0.7] 0.0) = a_fold /\
  a_fold <> a_call.
Proof. repeat split. discriminate. Qed.

(** Whatever the vector, a draw that is not above the fold entry selects
    fold. *)
Lemma sample_fold (probs : list double) (r : double) :
  dle r (probs !!! a_fold) = true -> type (sample probs r) = a_fold.
Proof.
  unfold sample. cbn [type Nat.sub NUM_ACTION_TYPES a_fold sample_walk].
  by intros ->.
Qed.


(** ** Rounding of binary64 *)

Local Open Scope Z_scope.

(** Powers of two. *)
Lemma pow2_pos (n : Z) : 0 <= n -> 0 < 2 ^ n.
Proof. intros H. apply Z.pow_pos_nonneg; lia. Qed.

Lemma pow2_split (a b : Z) : 0 <= a <= b -> 2 ^ b = 2 ^ a * 2 ^ (b - a).
Proof. intros H. rewrite <- Z.pow_add_r by lia. f_equal. lia. Qed.

Lemma pow2_succ (n : Z) : 0 <= n -> 2 ^ (n + 1) = 2 * 2 ^ n.
Proof. intros H. rewrite Z.pow_add_r by lia. lia. Qed.

Lemma pow2_le (a b : Z) : 0 <= a <= b -> 2 ^ a <= 2 ^ b.
Proof. intros H. apply Z.pow_le_mono_r; lia. Qed.

Lemma pow2_lt (a b : Z) : 0 <= a < b -> 2 ^ a < 2 ^ b.
Proof. intros H. apply Z.pow_lt_mono_r; lia. Qed.

(** The number of binary digits of a positive number. *)
Lemma digits2_pos_bounds (m : positive) :
  2 ^ (Zpos (digits2_pos m) - 1) <= Zpos m < 2 ^ Zpos (digits2_pos m).
Proof.
  induction m as [m IH|m IH|]; cbn [digits2_pos].
  - rewrite Pos2Z.inj_succ.
    replace (Z.succ (Zpos (digits2_pos m)) - 1) with (Zpos (digits2_pos m) - 1 + 1) by lia.
    replace (Z.succ (Zpos (digits2_pos m))) with (Zpos (digits2_pos m) + 1) by lia.
    rewrite !pow2_succ by lia. lia.
  - rewrite Pos2Z.inj_succ.
    replace (Z.succ (Zpos (digits2_pos m)) - 1) with (Zpos (digits2_pos m) - 1 + 1) by lia.
    replace (Z.succ (Zpos (digits2_pos m))) with (Zpos (digits2_pos m) + 1) by lia.
    rewrite !pow2_succ by lia. lia.
  - cbn. lia.
Qed.

(** The number of digits is determined by the bounds. *)
Lemma digits2_pos_unique (m : positive) (d : Z) :
  2 ^ (d - 1) <= Zpos m < 2 ^ d -> 0 < d -> Zpos (digits2_pos m) = d.
Proof.
  intros [H1 H2] Hd. pose proof (digits2_pos_bounds m) as [B1 B2].
  destruct (Z.lt_trichotomy (Zpos (digits2_pos m)) d) as [Hlt|[Heq|Hgt]]; [|exact Heq|].
  - pose proof (pow2_le (Zpos (digits2_pos m)) (d - 1)). lia.
  - pose proof (pow2_le d (Zpos (digits2_pos m) - 1)). lia.
Qed.

(** Shifting a mantissa to the left. *)
Lemma iter_xO (m n : positive) : Zpos (Pos.iter xO m n) = Zpos m * 2 ^ Zpos n.
Proof.
  induction n as [|n IH] using Pos.peano_ind.
  - cbn [Pos.iter]. rewrite Pos2Z.inj_xO. lia.
  - rewrite Pos.iter_succ, Pos2Z.inj_succ, Pos2Z.inj_xO, IH.
    replace (Z.succ (Zpos n)) with (Zpos n + 1) by lia.
    rewrite pow2_succ by lia. lia.
Qed.

Lemma shl_align_spec (m : positive) (e e' : Z) :
  e' <= e ->
  Zpos (fst (shl_align m e e')) = Zpos m * 2 ^ (e - e') /\
  snd (shl_align m e e') = e'.
Proof.
  intros H. unfold shl_align.
  destruct (e' - e) as [|d|d] eqn:E; try lia.
  - replace (e - e') with 0 by lia. cbn [fst snd]. split; lia.
  - cbn [fst snd]. rewrite iter_xO. replace (e - e') with (Zpos d) by lia.
    split; reflexivity.
Qed.

(** [iter_pos] iterates. *)
Lemma iter_pos_nat {X} (f : X -> X) (n : positive) (x : X) :
  SpecFloat.iter_pos f n x = Nat.iter (Pos.to_nat n) f x.
Proof.
  revert x. induction n as [n IH|n IH|]; intros x; cbn [SpecFloat.iter_pos].
  - rewrite !IH, Pos2Nat.inj_xI.
    replace (S (2 * Pos.to_nat n)) with (Pos.to_nat n + (Pos.to_nat n + 1))%nat by lia.
    rewrite !Nat.iter_add. reflexivity.
  - rewrite !IH, Pos2Nat.inj_xO.
    replace (2 * Pos.to_nat n)%nat with (Pos.to_nat n + Pos.to_nat n)%nat by lia.
    rewrite Nat.iter_add. reflexivity.
  - reflexivity.
Qed.


Lemma shr_1_nonneg (m : Z) (r s : bool) :
  0 <= m ->
  exists m' b, shr_1 (Build_shr_record m r s) = Build_shr_record m' b (r || s) /\
               0 <= m' /\ m = 2 * m' + Z.b2z b.
Proof.
  intros H. destruct m as [|[p|p|]|p]; try lia; cbn [shr_1].
  - exists 0, false. repeat split; cbn; lia.
  - exists (Zpos p), true. repeat split; cbn; lia.
  - exists (Zpos p), false. repeat split; cbn; lia.
  - exists 0, true. repeat split; cbn; lia.
Qed.

Lemma shr_inv_first (M : Z) :
  0 <= M -> shr_inv M 1 (shr_1 (Build_shr_record M false false)).
Proof.
  intros H. destruct (shr_1_nonneg M false false H) as (m' & b & -> & H1 & H2).
  split; [exact H1|]. exists 0. cbn [shr_m shr_r shr_s orb].
  change (2 ^ (1 - 1)) with 1. change (2 ^ 1) with 2.
  repeat split; try lia; intros E; try discriminate E; lia.
Qed.

Lemma shr_inv_step (M n : Z) (mrs : shr_record) :
  1 <= n -> shr_inv M n mrs -> shr_inv M (n + 1) (shr_1 mrs).
Proof.
  intros Hn [Hm (sigma & HM & Hs & Hss)].
  destruct mrs as [m r s]. cbn [shr_m shr_r shr_s] in *.
  destruct (shr_1_nonneg m r s Hm) as (m' & b & -> & H1 & H2).
  split; [exact H1|]. cbn [shr_m shr_r shr_s].
  exists (Z.b2z r * 2 ^ (n - 1) + sigma).
  replace (n + 1 - 1) with n by lia.
  pose proof (pow2_pos (n - 1) ltac:(lia)) as Hp.
  assert (2 ^ n = 2 * 2 ^ (n - 1)) as En.
  { replace n with (n - 1 + 1) at 1 by lia. apply pow2_succ. lia. }
  rewrite pow2_succ by lia.
  split; [|split].
  - rewrite HM, H2. ring.
  - destruct r; cbn [Z.b2z]; lia.
  - destruct r, s; cbn [orb Z.b2z]; split; intros E; try reflexivity; try lia.
Qed.

Lemma shr_inv_iter (M : Z) (n : nat) :
  0 <= M ->
  shr_inv M (Z.of_nat (S n)) (Nat.iter (S n) shr_1 (Build_shr_record M false false)).
Proof.
  intros H. induction n as [|n IH].
  - apply shr_inv_first, H.
  - replace (Z.of_nat (S (S n))) with (Z.of_nat (S n) + 1) by lia.
    cbn [Nat.iter]. apply shr_inv_step; [lia|]. exact IH.
Qed.

Lemma shr_spec (M e : Z) (p : positive) :
  0 <= M ->
  exists mrs, shr (Build_shr_record M false false) e (Zpos p) = (mrs, e + Zpos p) /\
              shr_inv M (Zpos p) mrs.
Proof.
  intros H. unfold shr. rewrite iter_pos_nat.
  destruct (Pos2Nat.is_succ p) as [n En]. rewrite En.
  eexists. split; [reflexivity|].
  replace (Zpos p) with (Z.of_nat (S n)) by lia.
  apply shr_inv_iter, H.
Qed.

(** *** Rounding to nearest, ties to even *)


Lemma round_nearest_even_rne (M n : Z) (mrs : shr_record) :
  1 <= n -> shr_inv M n mrs ->
  round_nearest_even (shr_m mrs) (loc_of_shr_record mrs) = rne M n.
Proof.
  intros Hn [Hm (sigma & HM & Hs & Hss)].
  destruct mrs as [m r s]. cbn [shr_m shr_r shr_s] in *.
  pose proof (pow2_pos (n - 1) ltac:(lia)) as Hp.
  assert (2 ^ n = 2 * 2 ^ (n - 1)) as En.
  { replace n with (n - 1 + 1) at 1 by lia. apply pow2_succ. lia. }
  set (rho := Z.b2z r * 2 ^ (n - 1) + sigma).
  assert (0 <= rho < 2 ^ n) as Hrho by (unfold rho; destruct r; cbn [Z.b2z]; lia).
  assert (M / 2 ^ n = m) as Ediv.
  { symmetry. apply (Z.div_unique M (2 ^ n) m rho); [lia|]. unfold rho. lia. }
  assert (M mod 2 ^ n = rho) as Emod.
  { symmetry. apply (Z.mod_unique M (2 ^ n) m rho); [lia|]. unfold rho. lia. }
  unfold rne. cbv zeta. rewrite Ediv, Emod.
  destruct r, s; cbn [loc_of_shr_record round_nearest_even]; unfold rho; cbn [Z.b2z].
  - assert (sigma <> 0) by (apply Hss; reflexivity).
    destruct (Z.ltb_spec (2 * (1 * 2 ^ (n - 1) + sigma)) (2 ^ n)); [lia|].
    destruct (Z.ltb_spec (2 ^ n) (2 * (1 * 2 ^ (n - 1) + sigma))); [reflexivity|lia].
  - assert (sigma = 0).
    { destruct (Z.eq_dec sigma 0) as [Z0|NZ]; [exact Z0|].
      destruct Hss as [_ Hss]. discriminate (Hss NZ). }
    subst sigma.
    destruct (Z.ltb_spec (2 * (1 * 2 ^ (n - 1) + 0)) (2 ^ n)); [lia|].
    destruct (Z.ltb_spec (2 ^ n) (2 * (1 * 2 ^ (n - 1) + 0))); [lia|reflexivity].
  - assert (sigma <> 0) by (apply Hss; reflexivity).
    destruct (Z.ltb_spec (2 * (0 * 2 ^ (n - 1) + sigma)) (2 ^ n)); [reflexivity|lia].
  - assert (sigma = 0).
    { destruct (Z.eq_dec sigma 0) as [Z0|NZ]; [exact Z0|].
      destruct Hss as [_ Hss]. discriminate (Hss NZ). }
    subst sigma.
    destruct (Z.ltb_spec (2 * (0 * 2 ^ (n - 1) + 0)) (2 ^ n)); [reflexivity|lia].
Qed.

(** *** The rounding of a mantissa and an exponent to binary64 *)

Lemma fexp64 (e : Z) : fexp prec emax e = Z.max (e - 53) (-1074).
Proof. reflexivity. Qed.

Lemma shr_fexp_exact (M e : Z) :
  fexp prec emax (Zdigits2 M + e) - e <= 0 ->
  shr_fexp prec emax M e loc_Exact = (Build_shr_record M false false, e).
Proof.
  intros H. unfold shr_fexp, shr. cbn [shr_record_of_loc].
  destruct (fexp prec emax (Zdigits2 M + e) - e); try reflexivity. lia.
Qed.

Lemma shr_fexp_shift (M e k : Z) :
  0 <= M ->
  k = fexp prec emax (Zdigits2 M + e) - e ->
  1 <= k ->
  exists mrs, shr_fexp prec emax M e loc_Exact = (mrs, e + k) /\ shr_inv M k mrs.
Proof.
  intros HM Hk Hk1. unfold shr_fexp. cbn [shr_record_of_loc]. rewrite <- Hk.
  destruct k as [|p|p]; try lia. apply shr_spec, HM.
Qed.

(** No bit is lost. *)
Lemma binary_round_aux_exact (sx : bool) (m : positive) (e : Z) :
  fexp prec emax (Zpos (digits2_pos m) + e) <= e ->
  e <= 971 ->
  binary_round_aux prec emax sx (Zpos m) e loc_Exact = S754_finite sx m e.
Proof.
  intros H1 H2. unfold binary_round_aux.
  rewrite shr_fexp_exact by (cbn [Zdigits2]; lia).
  cbn [shr_m loc_of_shr_record round_nearest_even].
  rewrite shr_fexp_exact by (cbn [Zdigits2]; lia).
  cbn [shr_m]. change (emax - prec) with 971.
  destruct (Z.leb_spec e 971); [reflexivity|lia].
Qed.

(** [k] bits are rounded away and the rounded mantissa has 53 digits. *)
Lemma binary_round_aux_round (sx : bool) (m m2 : positive) (e k : Z) :
  k = fexp prec emax (Zpos (digits2_pos m) + e) - e ->
  1 <= k ->
  rne (Zpos m) k = Zpos m2 ->
  Zpos (digits2_pos m2) = 53 ->
  -1074 <= e + k <= 971 ->
  binary_round_aux prec emax sx (Zpos m) e loc_Exact = S754_finite sx m2 (e + k).
Proof.
  intros Hk Hk1 Hr Hd He. unfold binary_round_aux.
  destruct (shr_fexp_shift (Zpos m) e k) as (mrs & -> & Hinv); [lia|exact Hk|exact Hk1|].
  rewrite (round_nearest_even_rne _ _ _ Hk1 Hinv), Hr.
  rewrite shr_fexp_exact.
  - cbn [shr_m]. change (emax - prec) with 971.
    destruct (Z.leb_spec (e + k) 971); [reflexivity|lia].
  - cbn [Zdigits2]. rewrite Hd, fexp64. lia.
Qed.

(** [k] bits are rounded away and the rounded mantissa is [2 ^ 53]. *)
Lemma binary_round_aux_carry (sx : bool) (m : positive) (e k : Z) :
  k = fexp prec emax (Zpos (digits2_pos m) + e) - e ->
  1 <= k ->
  rne (Zpos m) k = 2 ^ 53 ->
  -1074 <= e + k <= 970 ->
  binary_round_aux prec emax sx (Zpos m) e loc_Exact
    = S754_finite sx 4503599627370496 (e + k + 1).
Proof.
  intros Hk Hk1 Hr He. unfold binary_round_aux.
  destruct (shr_fexp_shift (Zpos m) e k) as (mrs & -> & Hinv); [lia|exact Hk|exact Hk1|].
  rewrite (round_nearest_even_rne _ _ _ Hk1 Hinv), Hr.
  unfold shr_fexp. cbn [shr_record_of_loc].
  change (Zdigits2 (2 ^ 53)) with 54. rewrite fexp64.
  replace (Z.max (54 + (e + k) - 53) (-1074) - (e + k)) with 1 by lia.
  change (shr (Build_shr_record (2 ^ 53) false false) (e + k) 1)
    with (Build_shr_record 4503599627370496 false false, e + k + 1).
  cbn [shr_m]. change (emax - prec) with 971.
  destruct (Z.leb_spec (e + k + 1) 971); [reflexivity|lia].
Qed.

Lemma digits2_pos_scale (m mz : positive) (n : Z) :
  0 <= n -> Zpos mz = Zpos m * 2 ^ n ->
  Zpos (digits2_pos mz) = Zpos (digits2_pos m) + n.
Proof.
  intros Hn E. pose proof (digits2_pos_bounds m) as [B1 B2].
  pose proof (pow2_pos n Hn) as Hp.
  apply digits2_pos_unique; [|lia]. rewrite E.
  replace (Zpos (digits2_pos m) + n - 1) with (Zpos (digits2_pos m) - 1 + n) by lia.
  rewrite !Z.pow_add_r by lia. split.
  - apply Z.mul_le_mono_nonneg_r; lia.
  - apply Z.mul_lt_mono_pos_r; lia.
Qed.

(** A mantissa with room to spare is stored exactly, shifted to the
    exponent of its magnitude. *)
Lemma binary_round_exact (sx : bool) (m : positive) (e : Z) :
  fexp prec emax (Zpos (digits2_pos m) + e) <= e ->
  fexp prec emax (Zpos (digits2_pos m) + e) <= 971 ->
  exists mz : positive,
    binary_round prec emax sx m e
      = S754_finite sx mz (fexp prec emax (Zpos (digits2_pos m) + e)) /\
    Zpos mz = Zpos m * 2 ^ (e - fexp prec emax (Zpos (digits2_pos m) + e)).
Proof.
  intros H1 H2. unfold binary_round.
  set (et := fexp prec emax (Zpos (digits2_pos m) + e)) in *.
  destruct (shl_align_spec m e et H1) as [Ez Ee].
  destruct (shl_align m e et) as [mz ez]. cbn [fst snd] in Ez, Ee. subst ez.
  exists mz. split; [|exact Ez].
  apply binary_round_aux_exact; [|exact H2].
  rewrite (digits2_pos_scale m mz (e - et)) by (lia || exact Ez).
  replace (Zpos (digits2_pos m) + (e - et) + et) with (Zpos (digits2_pos m) + e) by lia.
  fold et. lia.
Qed.

(** A mantissa with too many digits is rounded as it stands. *)
Lemma binary_round_unshifted (sx : bool) (m : positive) (e : Z) :
  e <= fexp prec emax (Zpos (digits2_pos m) + e) ->
  binary_round prec emax sx m e = binary_round_aux prec emax sx (Zpos m) e loc_Exact.
Proof.
  intros H. unfold binary_round, shl_align.
  destruct (fexp prec emax (Zpos (digits2_pos m) + e) - e) eqn:E; try reflexivity.
  lia.
Qed.

(** *** Facts on [rne] *)

Lemma rne_bounds (M n : Z) :
  0 <= M -> 1 <= n ->
  M / 2 ^ n <= rne M n <= M / 2 ^ n + 1 /\
  - 2 ^ (n - 1) <= rne M n * 2 ^ n - M <= 2 ^ (n - 1).
Proof.
  intros HM Hn. unfold rne. cbv zeta.
  pose proof (pow2_pos (n - 1) ltac:(lia)) as Hp.
  assert (2 ^ n = 2 * 2 ^ (n - 1)) as En.
  { replace n with (n - 1 + 1) at 1 by lia. apply pow2_succ. lia. }
  pose proof (Z.div_mod M (2 ^ n) ltac:(lia)) as Hdm.
  pose proof (Z.mod_pos_bound M (2 ^ n) ltac:(lia)) as Hmod.
  destruct (Z.ltb_spec (2 * (M mod 2 ^ n)) (2 ^ n)); [lia|].
  destruct (Z.ltb_spec (2 ^ n) (2 * (M mod 2 ^ n))); [lia|].
  destruct (Z.even (M / 2 ^ n)); lia.
Qed.

(** An exact multiple is not changed. *)
Lemma rne_exact (a n : Z) : 0 <= n -> rne (a * 2 ^ n) n = a.
Proof.
  intros Hn. unfold rne. cbv zeta.
  pose proof (pow2_pos n Hn) as Hp.
  rewrite Z.div_mul, Z.mod_mul by lia.
  destruct (Z.ltb_spec (2 * 0) (2 ^ n)); [reflexivity|lia].
Qed.

(** A mantissa just above a multiple is rounded down. *)
Lemma rne_down (a delta n : Z) :
  0 <= n -> 0 <= delta -> 2 * delta < 2 ^ n -> rne (a * 2 ^ n + delta) n = a.
Proof.
  intros Hn Hd Hlt. unfold rne. cbv zeta.
  pose proof (pow2_pos n Hn) as Hp.
  assert ((a * 2 ^ n + delta) / 2 ^ n = a) as Ediv.
  { symmetry. apply (Z.div_unique _ _ a delta); lia. }
  assert ((a * 2 ^ n + delta) mod 2 ^ n = delta) as Emod.
  { symmetry. apply (Z.mod_unique _ _ a delta); lia. }
  rewrite Ediv, Emod.
  destruct (Z.ltb_spec (2 * delta) (2 ^ n)); [reflexivity|lia].
Qed.

(** A mantissa at most half a unit below an even multiple is rounded up to
    it. *)
Lemma rne_up (a delta n : Z) :
  1 <= n -> 0 < delta -> 2 * delta <= 2 ^ n -> Z.even a = true ->
  rne (a * 2 ^ n - delta) n = a.
Proof.
  intros Hn Hd Hle Ha. unfold rne. cbv zeta.
  pose proof (pow2_pos n ltac:(lia)) as Hp.
  assert ((a * 2 ^ n - delta) / 2 ^ n = a - 1) as Ediv.
  { symmetry. apply (Z.div_unique _ _ (a - 1) (2 ^ n - delta)); lia. }
  assert ((a * 2 ^ n - delta) mod 2 ^ n = 2 ^ n - delta) as Emod.
  { symmetry. apply (Z.mod_unique _ _ (a - 1) (2 ^ n - delta)); lia. }
  rewrite Ediv, Emod.
  assert (Z.even (a - 1) = false) as Hodd.
  { rewrite Z.even_sub. rewrite Ha. reflexivity. }
  destruct (Z.ltb_spec (2 * (2 ^ n - delta)) (2 ^ n)); [lia|].
  destruct (Z.ltb_spec (2 ^ n) (2 * (2 ^ n - delta))); [lia|].
  rewrite Hodd. lia.
Qed.

(** *** The complement of a probability *)


Lemma bounded_facts (m : positive) (e : Z) :
  bounded prec emax m e = true ->
  -1074 <= e <= 971 /\ Zpos (digits2_pos m) <= 53 /\ Zpos m < 2 ^ 53 /\
  (e = -1074 \/ Zpos (digits2_pos m) = 53).
Proof.
  unfold bounded, canonical_mantissa. intros H.
  apply andb_true_iff in H as [H1 H2].
  apply Z.eqb_eq in H1. apply Z.leb_le in H2.
  rewrite fexp64 in H1. change (emax - prec) with 971 in H2.
  pose proof (digits2_pos_bounds m) as [B1 B2].
  assert (Zpos (digits2_pos m) <= 53) as Hd by lia.
  pose proof (pow2_le (Zpos (digits2_pos m)) 53 ltac:(lia)).
  repeat split; lia.
Qed.

Lemma SFadd_finite (m1 m2 : positive) (e1 e2 : Z) :
  SF64add (S754_finite false m1 e1) (S754_finite false m2 e2)
  = binary_round prec emax false
      (fst (shl_align m1 e1 (Z.min e1 e2)) + fst (shl_align m2 e2 (Z.min e1 e2)))
      (Z.min e1 e2).
Proof. reflexivity. Qed.

Lemma SFsub_one (m : positive) (e : Z) :
  e <= -53 -> Zpos m < 2 ^ 53 ->
  exists M : positive,
    Zpos M = 2 ^ (- e) - Zpos m /\
    SF64sub SF_one (S754_finite false m e) = binary_round prec emax false M e.
Proof.
  intros He Hm. unfold SF64sub, SFsub, SF_one. cbv zeta.
  rewrite Z.min_r by lia. cbn [cond_Zopp].
  destruct (shl_align_spec 4503599627370496 (-52) e ltac:(lia)) as [E1 _].
  destruct (shl_align_spec m e e ltac:(lia)) as [E2 _].
  rewrite E1, E2.
  replace (e - e) with 0 by lia. rewrite Z.pow_0_r, Z.mul_1_r.
  change (Zpos 4503599627370496) with (2 ^ 52).
  rewrite <- Z.pow_add_r by lia.
  replace (52 + (-52 - e)) with (- e) by lia.
  pose proof (pow2_le 53 (- e) ltac:(lia)) as Hle.
  destruct (2 ^ (- e) - Zpos m) as [|M|M] eqn:EM; try lia.
  exists M. split; reflexivity.
Qed.

(** A sum that is within half a unit in the last place of 1, on either
    side, is rounded to 1. *)
Lemma binary_round_near_one (S : positive) (e delta k : Z) :
  Zpos S = 2 ^ (- e) + delta ->
  1 <= k <= - e - 53 ->
  - 2 ^ (k - 1) <= delta <= 2 ^ (k - 1) ->
  binary_round prec emax false S e = SF_one.
Proof.
  intros ES Hk Hd.
  pose proof (pow2_pos (k - 1) ltac:(lia)) as Hp.
  assert (2 ^ k = 2 * 2 ^ (k - 1)) as Ek.
  { replace k with (k - 1 + 1) at 1 by lia. apply pow2_succ. lia. }
  pose proof (pow2_le k (- e - 53) ltac:(lia)) as Hk53.
  assert (2 ^ (- e) = 2 ^ 53 * 2 ^ (- e - 53)) as E53.
  { rewrite <- Z.pow_add_r by lia. f_equal. lia. }
  assert (2 ^ (- e) = 2 ^ 52 * 2 ^ (- e - 52)) as E52.
  { rewrite <- Z.pow_add_r by lia. f_equal. lia. }
  assert (2 ^ (- e - 52) = 2 * 2 ^ (- e - 53)) as E5253.
  { replace (- e - 52) with (- e - 53 + 1) by lia. apply pow2_succ. lia. }
  assert (2 ^ (- e + 1) = 2 * 2 ^ (- e)) as Esucc by (apply pow2_succ; lia).
  assert (2 ^ (- e) = 2 * 2 ^ (- e - 1)) as Epred.
  { replace (- e) with (- e - 1 + 1) at 1 by lia. apply pow2_succ. lia. }
  change (2 ^ 53) with 9007199254740992 in E53.
  change (2 ^ 52) with 4503599627370496 in E52.
  pose proof (pow2_pos (- e - 53) ltac:(lia)) as Hp53.
  destruct (Z_le_gt_dec 0 delta) as [Hpos|Hneg].
  - assert (Zpos (digits2_pos S) = - e + 1) as Hdig.
    { apply digits2_pos_unique; [|lia].
      replace (- e + 1 - 1) with (- e) by lia. lia. }
    rewrite binary_round_unshifted by (rewrite Hdig, fexp64; lia).
    rewrite (binary_round_aux_round false S 4503599627370496 e (- e - 52)).
    + unfold SF_one. f_equal. lia.
    + rewrite Hdig, fexp64. lia.
    + lia.
    + rewrite ES, E52. apply rne_down; lia.
    + reflexivity.
    + lia.
  - assert (Zpos (digits2_pos S) = - e) as Hdig.
    { apply digits2_pos_unique; lia. }
    rewrite binary_round_unshifted by (rewrite Hdig, fexp64; lia).
    rewrite (binary_round_aux_carry false S e (- e - 53)).
    + unfold SF_one. f_equal. lia.
    + rewrite Hdig, fexp64. lia.
    + lia.
    + rewrite ES, E53.
      replace (9007199254740992 * 2 ^ (- e - 53) + delta)
        with (9007199254740992 * 2 ^ (- e - 53) - (- delta)) by lia.
      change (2 ^ 53) with 9007199254740992.
      apply rne_up; [lia|lia|lia|reflexivity].
    + lia.
Qed.

(** A sum that is exactly a power of two equal to 1 is stored as 1. *)
Lemma binary_round_one (S : positive) (et : Z) :
  Zpos S = 2 ^ (- et) -> et <= -53 ->
  binary_round prec emax false S et = SF_one.
Proof.
  intros ES Het.
  assert (2 ^ (- et + 1) = 2 * 2 ^ (- et)) as Esucc by (apply pow2_succ; lia).
  pose proof (pow2_pos (- et) ltac:(lia)) as Hp.
  assert (Zpos (digits2_pos S) = - et + 1) as Hdig.
  { apply digits2_pos_unique; [|lia].
    replace (- et + 1 - 1) with (- et) by lia. lia. }
  rewrite binary_round_unshifted by (rewrite Hdig, fexp64; lia).
  rewrite (binary_round_aux_round false S 4503599627370496 et (- et - 52)).
  - unfold SF_one. f_equal. lia.
  - rewrite Hdig, fexp64. lia.
  - lia.
  - rewrite ES.
    replace (2 ^ (- et)) with (4503599627370496 * 2 ^ (- et - 52)).
    + apply rne_exact. lia.
    + change 4503599627370496 with (2 ^ 52). rewrite <- Z.pow_add_r by lia.
      f_equal. lia.
  - reflexivity.
  - lia.
Qed.

(** The complement [1 - p] of a binary64 number [p = m * 2 ^ e] with
    [0 < p < 1]: it is a positive number, at most 1, and adding [p] back
    gives exactly 1. *)
Lemma complement_finite (m : positive) (e : Z) :
  bounded prec emax m e = true -> e <= -53 ->
  exists (mq : positive) (eq : Z),
    SF64sub SF_one (S754_finite false m e) = S754_finite false mq eq /\
    eq <= -52 /\
    (eq = -52 -> mq = 4503599627370496%positive) /\
    SF64add (S754_finite false mq eq) (S754_finite false m e) = SF_one.
Proof.
  intros Hb He.
  destruct (bounded_facts m e Hb) as (He1 & Hdm & Hm & _).
  destruct (SFsub_one m e He Hm) as (M & EM & ->).
  pose proof (digits2_pos_bounds M) as [B1 B2].
  pose proof (pow2_le 53 (- e) ltac:(lia)) as H53.
  set (d := Zpos (digits2_pos M)) in *.
  assert (d <= - e) as Hde.
  { destruct (Z_le_gt_dec d (- e)) as [Hle|Hgt]; [exact Hle|].
    pose proof (pow2_le (- e) (d - 1) ltac:(lia)). lia. }
  destruct (Z_le_gt_dec d 53) as [Hsmall|Hbig].
  - (* the difference has at most 53 digits: it is stored exactly *)
    destruct (binary_round_exact false M e) as (mz & Eq & Ez).
    { fold d. rewrite fexp64. lia. }
    { fold d. rewrite fexp64. lia. }
    fold d in Eq, Ez. rewrite fexp64 in Eq, Ez.
    set (et := Z.max (d + e - 53) (-1074)) in *.
    assert (et <= e) as Het by (unfold et; lia).
    exists mz, et. split; [exact Eq|]. split; [lia|]. split; [lia|].
    rewrite SFadd_finite, Z.min_l by lia.
    destruct (shl_align_spec mz et et ltac:(lia)) as [E1 _].
    destruct (shl_align_spec m e et ltac:(lia)) as [E2 _].
    apply binary_round_one; [|lia].
    rewrite Pos2Z.inj_add, E1, E2, Ez.
    replace (et - et) with 0 by lia. rewrite Z.pow_0_r, Z.mul_1_r, EM.
    rewrite <- Z.mul_add_distr_r.
    replace (2 ^ (- e) - Zpos m + Zpos m) with (2 ^ (- e)) by lia.
    rewrite <- Z.pow_add_r by lia. f_equal. lia.
  - (* the difference has more than 53 digits: d - 53 of them are rounded *)
    set (k := d - 53) in *.
    assert (1 <= k <= - e - 53) as Hk by (unfold k; lia).
    assert (k = fexp prec emax (Zpos (digits2_pos M) + e) - e) as Efexp.
    { fold d. rewrite fexp64. unfold k. lia. }
    destruct (rne_bounds (Zpos M) k ltac:(lia) ltac:(lia)) as [Hq Herr].
    assert (2 ^ (d - 1) = 2 ^ 52 * 2 ^ k) as Edl.
    { rewrite <- Z.pow_add_r by lia. f_equal. unfold k. lia. }
    assert (2 ^ d = 2 ^ 53 * 2 ^ k) as Edu.
    { rewrite <- Z.pow_add_r by lia. f_equal. unfold k. lia. }
    pose proof (pow2_pos k ltac:(lia)) as Hpk.
    assert (2 ^ 52 <= Zpos M / 2 ^ k < 2 ^ 53) as Hdiv.
    { split.
      - apply Z.div_le_lower_bound; lia.
      - apply Z.div_lt_upper_bound; lia. }
    change (2 ^ 52) with 4503599627370496 in *.
    change (2 ^ 53) with 9007199254740992 in *.
    set (m2 := rne (Zpos M) k) in *.
    set (delta := m2 * 2 ^ k - Zpos M) in *.
    assert (forall (mq : positive) (eq : Z),
              e <= eq -> Zpos mq * 2 ^ (eq - e) = m2 * 2 ^ k ->
              SF64add (S754_finite false mq eq) (S754_finite false m e) = SF_one)
      as Hsum.
    { intros mq eq Heq Emq.
      rewrite SFadd_finite, Z.min_r by lia.
      destruct (shl_align_spec mq eq e ltac:(lia)) as [E1 _].
      destruct (shl_align_spec m e e ltac:(lia)) as [E2 _].
      apply (binary_round_near_one _ e delta k); [|lia|exact Herr].
      rewrite Pos2Z.inj_add, E1, E2, Emq.
      replace (e - e) with 0 by lia. rewrite Z.pow_0_r, Z.mul_1_r.
      unfold delta. lia. }
    destruct (Z_lt_ge_dec m2 9007199254740992) as [Hnocarry|Hcarry].
    + destruct m2 as [|m2p|m2p] eqn:Em2; try lia.
      assert (Zpos (digits2_pos m2p) = 53) as Hd2.
      { apply digits2_pos_unique; [|lia].
        change (2 ^ (53 - 1)) with 4503599627370496.
        change (2 ^ 53) with 9007199254740992. lia. }
      exists m2p, (e + k). split; [|split; [lia|split; [lia|]]].
      * rewrite binary_round_unshifted by (fold d; rewrite fexp64; unfold k; lia).
        apply binary_round_aux_round; try assumption; lia.
      * apply Hsum; [lia|]. f_equal. f_equal. lia.
    + assert (m2 = 9007199254740992) as Em2 by lia.
      exists 4503599627370496%positive, (e + k + 1).
      split; [|split; [lia|split; [reflexivity|]]].
      * rewrite binary_round_unshifted by (fold d; rewrite fexp64; unfold k; lia).
        apply binary_round_aux_carry; try assumption; lia.
      * apply Hsum; [lia|]. rewrite Em2.
        replace (e + k + 1 - e) with (k + 1) by lia.
        rewrite pow2_succ by lia. lia.
Qed.

Local Close Scope Z_scope.

(** ** The complement of a probability *)

Lemma Prim2SF_neg_zero : Prim2SF (-0) = S754_zero true.
Proof. reflexivity. Qed.

(** For a double [p] in [0, 1], the double [1 - p] is in [0, 1] as well, and
    the sums (1 - p) + p + 0 and 0 + (1 - p) + p, evaluated in binary64 from
    the left, are exactly 1. *)
Lemma complement_probability (p : double) :
  in_range 0 1 p = true ->
  in_range 0 1 (1 - p) = true /\
  (1 - p) + p + 0 = 1 /\
  0 + (1 - p) + p = 1.
Proof.
  intros Hp. unfold in_range in Hp. apply andb_true_iff in Hp as [H0 H1].
  rewrite dle_compare, Prim2SF_zero in H0. rewrite dle_compare, Prim2SF_one in H1.
  pose proof (Prim2SF_valid p) as Hv.
  destruct (Prim2SF p) as [s|s| |s m e] eqn:Ep.
  - (* p is a zero *)
    assert (p = 0 \/ p = (-0)%float) as [->| ->].
    { destruct s; [right|left]; apply Prim2SF_inj; rewrite Ep; reflexivity. }
    + repeat split; reflexivity.
    + repeat split; reflexivity.
  - destruct s; cbn [SFcompare] in H0, H1; discriminate.
  - discriminate H0.
  - cbn [SFcompare] in H0, H1. destruct s; [discriminate H0|].
    cbn [valid_binary] in Hv.
    destruct (bounded_facts m e Hv) as (He & Hd & Hm & Hnorm).
    destruct (Z.compare_spec e (-52)) as [Ee|Ee|Ee]; [| |discriminate H1].
    + (* p is 1 *)
      subst e. destruct Hnorm as [?|Hd53]; [lia|].
      pose proof (digits2_pos_bounds m) as [B1 B2]. rewrite Hd53 in B1.
      change (2 ^ (53 - 1))%Z with 4503599627370496%Z in B1.
      assert (m = 4503599627370496%positive) as ->.
      { destruct (PosDef.Pos.compare_cont Eq m 4503599627370496) eqn:Ec;
          [|exfalso|discriminate H1].
        - exact (Pos.compare_eq _ _ Ec).
        - pose proof (proj1 (Pos.compare_lt_iff _ _) Ec) as Hlt.
          apply Pos2Z.pos_lt_pos in Hlt.
          exact (Z.lt_irrefl _ (Z.lt_le_trans _ _ _ Hlt B1)). }
      assert (p = 1) as -> by (apply Prim2SF_inj; rewrite Ep; reflexivity).
      repeat split; reflexivity.
    + (* 0 < p < 1 *)
      destruct (complement_finite m e Hv ltac:(lia)) as (mq & eq & Esub & Heq & Hmq & Eadd).
      assert (Prim2SF (1 - p) = S754_finite false mq eq) as Eq1.
      { rewrite sub_spec, Prim2SF_one, Ep. exact Esub. }
      assert (Prim2SF (1 - p + p) = SF_one) as Eq2.
      { rewrite add_spec, Eq1, Ep. exact Eadd. }
      split; [|split].
      * unfold in_range. rewrite !dle_compare, Prim2SF_zero, Prim2SF_one, Eq1.
        cbn [SFcompare andb].
        destruct (Z.compare_spec eq (-52)) as [E|E|E]; [|reflexivity|lia].
        rewrite (Hmq E). reflexivity.
      * apply Prim2SF_inj. rewrite add_spec, Eq2, Prim2SF_zero, Prim2SF_one.
        reflexivity.
      * apply Prim2SF_inj.
        assert (Prim2SF (0 + (1 - p)) = S754_finite false mq eq) as Eq3.
        { rewrite add_spec, Prim2SF_zero, Eq1. reflexivity. }
        rewrite add_spec, Eq3, Ep, Prim2SF_one. exact Eadd.
Qed.

(** ** The vectors of the decision engines are probability vectors *)

Lemma in_range_zero : in_range 0 1 0 = true.
Proof. reflexivity. Qed.

(** The two shapes of vector that the engines produce. *)
Lemma distribution_fold_call (p : double) :
  in_range 0 1 p = true -> is_distribution [1 - p; p; 0].
Proof.
  intros Hp. destruct (complement_probability p Hp) as (Hc & Hsum & _).
  split; [reflexivity|]. split; [|exact Hsum].
  intros x Hx.
  repeat (apply elem_of_cons in Hx as [->|Hx];
          [first [exact Hc | exact Hp | exact in_range_zero]|]).
  inversion Hx.
Qed.

Lemma distribution_call_raise (p : double) :
  in_range 0 1 p = true -> is_distribution [0; 1 - p; p].
Proof.
  intros Hp. destruct (complement_probability p Hp) as (Hc & _ & Hsum).
  split; [reflexivity|]. split; [|exact Hsum].
  intros x Hx.
  repeat (apply elem_of_cons in Hx as [->|Hx];
          [first [exact Hc | exact Hp | exact in_range_zero]|]).
  inversion Hx.
Qed.

Lemma by_rank_ind `{T : StrategyTables} {X} (P : X -> Prop)
    (card_rank : Z) (jack queen king otherwise : X) :
  P jack -> P queen -> P king -> P otherwise ->
  P (by_rank card_rank jack queen king otherwise).
Proof.
  intros. unfold by_rank.
  destruct (JACK_RANK =? card_rank)%Z, (QUEEN_RANK =? card_rank)%Z,
    (KING_RANK =? card_rank)%Z; assumption.
Qed.

Section TableFacts.
Context `{T : StrategyTables}.
Hypothesis HT : tables_ok T = true.

Lemma tables_ok_facts :
  length A = 4%nat /\ (forall row, row ∈ A -> length row = 4%nat) /\
  length C4 = 4%nat /\
  (forall row x, row ∈ A -> x ∈ row -> in_range 0 1 x = true) /\
  (forall x, x ∈ C4 -> in_range 0 1 x = true) /\
  (forall x, x ∈ table_constants -> in_range 0 1 x = true).
Proof.
  pose proof HT as H. unfold tables_ok in H.
  apply andb_true_iff in H as [H Hconst]. apply andb_true_iff in H as [H HC4r].
  apply andb_true_iff in H as [H HAr]. apply andb_true_iff in H as [H HC4].
  apply andb_true_iff in H as [HA Hrows].
  rewrite forallb_forall in Hconst, HC4r, HAr, Hrows.
  repeat split.
  - by apply Nat.eqb_eq.
  - intros row Hrow. by apply Nat.eqb_eq, Hrows, list_elem_of_In.
  - by apply Nat.eqb_eq.
  - intros row x Hrow Hx.
    pose proof (HAr row (proj1 (list_elem_of_In _ _) Hrow)) as Hr.
    rewrite forallb_forall in Hr. by apply Hr, list_elem_of_In.
  - intros x Hx. by apply HC4r, list_elem_of_In.
  - intros x Hx. by apply Hconst, list_elem_of_In.
Qed.

Lemma constant_in_range (x : double) :
  x ∈ table_constants -> in_range 0 1 x = true.
Proof. apply tables_ok_facts. Qed.

Lemma A_at_defined (row : Z) (col : nat) :
  (0 <= row < 4)%Z -> (col < 4)%nat ->
  exists a, A_at row col = Some a /\ in_range 0 1 a = true.
Proof.
  intros Hrow Hcol. destruct tables_ok_facts as (HA & Hrows & _ & HAr & _).
  unfold A_at. destruct (Z.ltb_spec row 0); [lia|].
  destruct (lookup_lt_is_Some_2 A (Z.to_nat row)) as [r Er]; [lia|].
  rewrite Er. cbn [mbind option_bind].
  pose proof (list_elem_of_lookup_2 _ _ _ Er) as Hr.
  destruct (lookup_lt_is_Some_2 r col) as [a Ea]; [rewrite (Hrows r Hr); lia|].
  exists a. split; [exact Ea|].
  apply (HAr r a Hr), (list_elem_of_lookup_2 _ _ _ Ea).
Qed.

Lemma C4_defined (k : nat) :
  (k < 4)%nat -> exists c, C4 !! k = Some c /\ in_range 0 1 c = true.
Proof.
  intros Hk. destruct tables_ok_facts as (_ & _ & HC & _ & HCr & _).
  destruct (lookup_lt_is_Some_2 C4 k) as [c Ec]; [lia|].
  exists c. split; [exact Ec|]. apply HCr, (list_elem_of_lookup_2 _ _ _ Ec).
Qed.

End TableFacts.

Section ParamFacts.
Context `{L : ParamLayout}.
Hypothesis HL : layout_ok L = true.
Variable p : list double.
Hypothesis Hlen : length p = NUM_PARAMS.
Hypothesis Hp : params_in_range p.

Lemma param_in_range (i : nat) :
  i ∈ (free_indices ++ derived_indices)%list -> in_range 0 1 (p !!! i) = true.
Proof.
  intros Hi. apply Hp, list_elem_of_lookup_total_2.
  rewrite Hlen. by apply (layout_bound HL).
Qed.

End ParamFacts.

Ltac index_in_layout :=
  unfold free_indices, derived_indices; cbn [app]; in_list.

Ltac constant_in_table := unfold table_constants; in_list.

(** C4.  For a validated parameter vector (every entry in [0, 1]) and tables
    whose constants are probabilities, the vector that the decision engine of
    each seat produces, for every card rank and every betting history, has
    three entries in [0, 1] whose sum is 1.  The first seat indexes its table
    by the rank counted from the Jack, which has to be one of the four rows. *)
Theorem action_probs_are_distributions :
  forall (L : ParamLayout) (T : StrategyTables) (p : list double)
         (card_rank : Z) (state : State) (probs : list double),
    layout_ok L = true ->
    tables_ok T = true ->
    length p = NUM_PARAMS ->
    params_in_range p ->
    length probs = NUM_ACTION_TYPES ->
    ((0 <= card_rank - JACK_RANK < 4)%Z ->
       exists v, action_probs_p0 card_rank state probs = Some v /\ is_distribution v) /\
    is_distribution (action_probs_p1 p card_rank state probs) /\
    (exists v, action_probs_p2 p card_rank state probs = Some v /\ is_distribution v).
Proof.
  intros L T p card_rank state probs HL HT Hlen Hp Hprobs.
  split; [|split].
  - intros Hrank. unfold action_probs_p0.
    destruct (numActions state 0 =? 0)%nat.
    + destruct (A_at_defined HT (card_rank - JACK_RANK)%Z 0 Hrank ltac:(lia))
        as (a & -> & Ha).
      cbn [mbind option_bind]. eexists. split; [reflexivity|].
      rewrite set_probs_triple by exact Hprobs. by apply distribution_call_raise.
    + match goal with
      | |- context [A_at _ ?i] =>
          destruct (A_at_defined HT (card_rank - JACK_RANK)%Z i Hrank) as (a & -> & Ha)
      end.
      { destruct (a_call =? _)%nat; [lia|]. destruct (a_fold =? _)%nat; lia. }
      cbn [mbind option_bind]. eexists. split; [reflexivity|].
      rewrite set_probs_triple by exact Hprobs. by apply distribution_fold_call.
  - unfold action_probs_p1.
    destruct (1 =? numActions state 0)%nat;
      [destruct (a_call =? _)%nat|destruct (a_fold =? _)%nat];
      rewrite set_probs_triple by exact Hprobs;
      first [apply distribution_call_raise | apply distribution_fold_call];
      apply by_rank_ind;
      first [ apply (param_in_range HL p Hlen Hp); index_in_layout
            | apply (constant_in_range HT); constant_in_table ].
  - unfold action_probs_p2.
    assert (forall (f : double -> list double) (o : option double),
              (forall c, in_range 0 1 c = true -> is_distribution (f c)) ->
              (exists c, o = Some c /\ in_range 0 1 c = true) ->
              exists v, (c ← o; Some (f c)) = Some v /\ is_distribution v) as Hbind.
    { intros f o Hf (c & -> & Hc). exists (f c). split; [reflexivity|]. by apply Hf. }
    destruct (a_call =? type (action_ state 0 0))%nat;
      [destruct (a_call =? _)%nat|destruct (a_fold =? _)%nat];
      apply Hbind;
      try (intros c Hc; rewrite set_probs_triple by exact Hprobs;
           first [by apply distribution_call_raise | by apply distribution_fold_call]);
      apply by_rank_ind;
      first [ eexists; split; [reflexivity|];
              first [ apply (param_in_range HL p Hlen Hp); index_in_layout
                    | apply (constant_in_range HT); constant_in_table ]
            | apply (C4_defined HT); lia ].
Qed.

Lemma action_probs_are_distributions_witness :
  ((0 <= 11 - 9 < 4)%Z ->
     exists v,
       action_probs_p0 (T := example_tables) 11 (history [a_call; a_raise; a_fold])
         [0; 0; 0] = Some v /\ is_distribution v) /\
  is_distribution
    (action_probs_p1 (L := example_layout) (T := example_tables)
       (params example_validated) 11 (history [a_raise]) [0; 0; 0]) /\
  (exists v,
     action_probs_p2 (L := example_layout) (T := example_tables)
       (params example_validated) 11 (history [a_call; a_call]) [0; 0; 0] = Some v /\
     is_distribution v).
Proof.
  pose proof (action_probs_are_distributions example_layout example_tables
                (params example_validated) 11) as H.
  assert (params_in_range (params example_validated)) as Hp.
  { intros x Hx. cbn in Hx.
    repeat (apply elem_of_cons in Hx as [->|Hx]; [reflexivity|]).
    inversion Hx. }
  split; [|split].
  - apply (H (history [a_call; a_raise; a_fold]) [0; 0; 0]
             eq_refl eq_refl eq_refl Hp eq_refl).
  - apply (H (history [a_raise]) [0; 0; 0] eq_refl eq_refl eq_refl Hp eq_refl).
  - apply (H (history [a_call; a_call]) [0; 0; 0] eq_refl eq_refl eq_refl Hp eq_refl).
Defined.

(** * Further properties of the validator *)

(** In sub-families 2 and 3 [check_params] checks no inequality and stores
    nothing: the player is left as it was whatever the outcome, validation
    succeeds exactly when no slot is below 0 or above 1, and the only error is
    the range error.  The derived slots keep the values the caller gave. *)
Theorem check_params_placeholder_families :
  forall (L : ParamLayout) (pl : kuhn_3p_equilibrium_player_t),
    sub_family_number (params pl !!! C11_INDEX) = 2%nat \/
    sub_family_number (params pl !!! C11_INDEX) = 3%nat ->
    exists r : outcome unit,
      check_params pl = (pl, r) /\
      (r = Returned tt <->
       forall i, (i < NUM_PARAMS)%nat -> out_of_range 0 1 (params pl !!! i) = false) /\
      (r = Returned tt \/ r = Thrown err_param_range).
Proof.
  intros L pl Hfam.
  rewrite (check_params_after_family_checks pl pl) by (right; by split).
  rewrite check_range_loop_eq. eexists. split; [reflexivity|].
  rewrite <- existsb_seq_false.
  destruct (existsb _ _); split; try (split; congruence); auto.
Qed.

Lemma check_params_placeholder_families_witness :
  exists r : outcome unit,
    check_params (L := example_layout) (player_of family_2_params)
      = (player_of family_2_params, r) /\
    (r = Returned tt <->
     forall i, (i < 10)%nat -> out_of_range 0 1 (family_2_params !!! i) = false) /\
    (r = Returned tt \/ r = Thrown err_param_range).
Proof.
  apply (check_params_placeholder_families example_layout (player_of family_2_params)).
  left. reflexivity.
Defined.

(** Whenever [check_params] returns, no slot of the vector it leaves is
    below 0 or above 1, and every slot that holds a number is in [0, 1]. *)
Theorem validated_slots_in_range :
  forall (L : ParamLayout) (pl pl' : kuhn_3p_equilibrium_player_t) (i : nat),
    check_params pl = (pl', Returned tt) ->
    (i < NUM_PARAMS)%nat ->
    out_of_range 0 1 (params pl' !!! i) = false /\
    (is_number (params pl' !!! i) = true -> in_range 0 1 (params pl' !!! i) = true).
Proof.
  intros L pl pl' i E Hi.
  destruct (check_params_returned pl pl' E) as [_ Hex].
  rewrite existsb_seq_false in Hex. specialize (Hex i Hi). cbv beta in Hex.
  split; [exact Hex|]. intros Hnum.
  by apply number_in_or_out.
Qed.

Lemma validated_slots_in_range_witness :
  out_of_range 0 1 (params example_validated !!! 7%nat) = false /\
  (is_number (params example_validated !!! 7%nat) = true ->
   in_range 0 1 (params example_validated !!! 7%nat) = true).
Proof.
  apply (validated_slots_in_range example_layout example_player example_validated 7).
  - reflexivity.
  - cbn. lia.
Defined.

(** Validation is not atomic for range errors: in sub-family 1, when the
    five inequalities pass and a slot of the derived vector is out of range,
    [check_params] throws the range error and leaves the player with the four
    derived slots already stored. *)
Theorem range_error_after_derivation :
  forall (L : ParamLayout) (pl : kuhn_3p_equilibrium_player_t) (k : nat),
    layout_ok L = true ->
    player_ok pl ->
    sub_family_number (params pl !!! C11_INDEX) = 1%nat ->
    (forall i : inequality, violated (params pl) i = false) ->
    (k < NUM_PARAMS)%nat ->
    out_of_range 0 1 (with_derived (params pl) !!! k) = true ->
    check_params pl
      = (with_params pl (with_derived (params pl)), Thrown err_param_range).
Proof.
  intros L pl k HL Hpl Hfam Hnone Hk Hout.
  assert (check_family_1_params pl
            = (with_params pl (with_derived (params pl)), Returned tt)) as E1.
  { rewrite check_family_1_params_eq. cbv zeta. rewrite !Hnone.
    by rewrite (stores_are_with_derived HL). }
  rewrite (check_params_after_family_checks pl
             (with_params pl (with_derived (params pl))))
    by (left; by split).
  rewrite check_range_loop_eq.
  by rewrite (existsb_seq_here _ NUM_PARAMS k Hk Hout).
Qed.

Lemma range_error_after_derivation_witness :
  check_params (L := example_layout) (player_of large_c34_params)
    = (player_of [0.125; 0.25; 0.5; 0; 0.25; 2; 0; 0.8125; 0.75; 0.5],
       Thrown err_param_range).
Proof.
  apply (range_error_after_derivation example_layout (player_of large_c34_params) 5).
  - reflexivity.
  - reflexivity.
  - reflexivity.
  - intros []; reflexivity.
  - cbn. lia.
  - reflexivity.
Defined.

Lemma list_insert_same (l : list double) (i : nat) (x : double) :
  (i < length l)%nat -> l !!! i = x -> <[i := x]> l = l.
Proof.
  intros Hi E. apply list_insert_id.
  rewrite <- E. by apply list_lookup_lookup_total_lt.
Qed.

Lemma with_params_same (pl : kuhn_3p_equilibrium_player_t) :
  with_params pl (params pl) = pl.
Proof. by destruct pl. Qed.

Section Idempotence.
Context `{L : ParamLayout}.
Hypothesis HL : layout_ok L = true.
Variable p : list double.
Hypothesis Hp : length p = NUM_PARAMS.

(** Deriving twice is deriving once. *)
Lemma with_derived_idempotent : with_derived (with_derived p) = with_derived p.
Proof.
  pose proof (length_with_derived p Hp) as Hlen.
  destruct (with_derived_slots HL p Hp) as (S1 & S2 & S3 & S4).
  assert (with_derived p !!! B11_INDEX = p !!! B11_INDEX) as E11.
  { apply with_derived_other, (free_not_derived HL). unfold free_indices. in_list. }
  assert (with_derived p !!! B21_INDEX = p !!! B21_INDEX) as E21.
  { apply with_derived_other, (free_not_derived HL). unfold free_indices. in_list. }
  assert (B23_INDEX < NUM_PARAMS /\ B33_INDEX < NUM_PARAMS /\
          B41_INDEX < NUM_PARAMS /\ C21_INDEX < NUM_PARAMS)%nat as (l1 & l2 & l3 & l4).
  { repeat split; apply (layout_bound HL);
      unfold free_indices, derived_indices; cbn [app]; in_list. }
  set (q := with_derived p) in *.
  unfold with_derived at 1.
  unfold b23_closed_form, b33_closed_form, b41_closed_form, c21_closed_form in *.
  rewrite E11, E21.
  rewrite (list_insert_same q B23_INDEX) by (rewrite ?Hlen; assumption).
  rewrite (list_insert_same q B33_INDEX) by (rewrite ?Hlen; assumption).
  rewrite (list_insert_same q B41_INDEX) by (rewrite ?Hlen; assumption).
  rewrite (list_insert_same q C21_INDEX) by (rewrite ?Hlen; assumption).
  reflexivity.
Qed.

Lemma violated_with_derived (i : inequality) :
  violated (with_derived p) i = violated p i.
Proof.
  apply violated_reads_free_slots. intros j Hj.
  apply with_derived_other, (free_not_derived HL).
  unfold free_indices.
  repeat (apply elem_of_cons in Hj as [->|Hj]; [in_list|]). inversion Hj.
Qed.

End Idempotence.

(** Validation is idempotent: validating a validated player again returns,
    and leaves it as it is. *)
Theorem check_params_idempotent :
  forall (L : ParamLayout) (pl pl' : kuhn_3p_equilibrium_player_t),
    layout_ok L = true ->
    player_ok pl ->
    check_params pl = (pl', Returned tt) ->
    check_params pl' = (pl', Returned tt).
Proof.
  intros L pl pl' HL Hpl E.
  destruct (check_params_returned pl pl' E) as [Hfam Hex].
  destruct Hfam as [[Hfam E1]|[Hfam ->]]; [|exact E].
  rewrite check_family_1_params_eq in E1. cbv zeta in E1.
  destruct (violated (params pl) b21_le_quarter) eqn:V1; [discriminate E1|].
  destruct (violated (params pl) b11_le_b21) eqn:V2; [discriminate E1|].
  destruct (violated (params pl) b32_upper) eqn:V3; [discriminate E1|].
  destruct (violated (params pl) c33_lower) eqn:V4; [discriminate E1|].
  destruct (violated (params pl) c33_upper) eqn:V5; [discriminate E1|].
  rewrite (stores_are_with_derived HL) in E1.
  injection E1 as <-.
  set (q := with_derived (params pl)) in *.
  assert (check_family_1_params (with_params pl q)
            = (with_params pl q, Returned tt)) as E2.
  { rewrite check_family_1_params_eq. cbv zeta. cbn [params with_params].
    unfold q. rewrite !(violated_with_derived HL), V1, V2, V3, V4, V5.
    rewrite (stores_are_with_derived HL), (with_derived_idempotent HL _ Hpl).
    reflexivity. }
  rewrite (check_params_after_family_checks (with_params pl q) (with_params pl q)).
  - rewrite check_range_loop_eq, Hex. reflexivity.
  - left. split; [|exact E2].
    cbn [params with_params]. unfold q.
    rewrite with_derived_other; [exact Hfam|].
    apply (free_not_derived HL). unfold free_indices. in_list.
Qed.

Lemma check_params_idempotent_witness :
  check_params (L := example_layout) example_validated = (example_validated, Returned tt).
Proof.
  apply (check_params_idempotent example_layout example_player example_validated);
    reflexivity.
Defined.

(** * Further properties of the classifier, the engines and the sampler *)

(** The classifier answers 1, 2, 3 or the illegal number, and a c11 that is
    a NaN, which compares neither equal to 0 or 1/2 nor above 1/2, is
    classified as sub-family 3. *)
Theorem sub_family_number_nan :
  forall c11 : double,
    sub_family_number c11 ∈ [1%nat; 2%nat; 3%nat; ILLEGAL_SUB_FAMILY] /\
    (is_nan c11 = true -> sub_family_number c11 = 3%nat).
Proof.
  intros c11. rewrite sub_family_number_eq. split.
  - destruct (deq c11 0), (deq c11 0.5), (dgt c11 0.5); in_list.
  - intros H. apply is_nan_Prim2SF in H.
    rewrite !deq_compare, dgt_compare, H. reflexivity.
Qed.

(** The probability of a raise is 0 at every decision point but the opening
    one of each seat (no action yet for the first seat, a single call for the
    second, two calls for the third), and at the opening one the probability
    of a fold is 0. *)
Theorem raise_only_when_checked_to :
  forall (L : ParamLayout) (T : StrategyTables) (p : list double)
         (card_rank : Z) (state : State) (probs : list double),
    length probs = NUM_ACTION_TYPES ->
    (forall v, action_probs_p0 card_rank state probs = Some v ->
       if (numActions state 0 =? 0)%nat
       then v !!! a_fold = 0 else v !!! a_raise = 0) /\
    (let v := action_probs_p1 p card_rank state probs in
     if (numActions state 0 =? 1)%nat && (type (action_ state 0 0) =? a_call)%nat
     then v !!! a_fold = 0 else v !!! a_raise = 0) /\
    (forall v, action_probs_p2 p card_rank state probs = Some v ->
       if (type (action_ state 0 0) =? a_call)%nat
          && (type (action_ state 0 1) =? a_call)%nat
       then v !!! a_fold = 0 else v !!! a_raise = 0).
Proof.
  intros L T p card_rank state probs Hprobs. split; [|split].
  - intros v. unfold action_probs_p0.
    destruct (numActions state 0 =? 0)%nat;
      destruct (A_at _ _) as [a|]; cbn [mbind option_bind];
      try discriminate; intros [= <-];
      by rewrite set_probs_triple.
  - cbv zeta. unfold action_probs_p1.
    rewrite (Nat.eqb_sym (numActions state 0)), (Nat.eqb_sym _ a_call).
    destruct (1 =? numActions state 0)%nat; cbn [andb];
      [destruct (a_call =? _)%nat|destruct (a_fold =? _)%nat];
      by rewrite set_probs_triple.
  - intros v. unfold action_probs_p2.
    rewrite !(Nat.eqb_sym _ a_call).
    destruct (a_call =? type (action_ state 0 0))%nat; cbn [andb];
      [destruct (a_call =? _)%nat|destruct (a_fold =? _)%nat];
      destruct (by_rank _ _ _ _ _) as [c|]; cbn [mbind option_bind];
      try discriminate; intros [= <-];
      by rewrite set_probs_triple.
Qed.

Lemma raise_only_when_checked_to_witness :
  action_probs_p1 (L := example_layout) (T := example_tables)
    (params example_validated) 11 (history [a_raise]) [0; 0; 0] !!! a_raise = 0.
Proof.
  destruct (raise_only_when_checked_to example_layout example_tables
              (params example_validated) 11 (history [a_raise]) [0; 0; 0] eq_refl)
    as (_ & H & _).
  exact H.
Defined.

Lemma sample_walk_ge (probs : list double) (n i : nat) (r : double) :
  (i <= sample_walk probs n i r <= i + n)%nat.
Proof.
  revert i r. induction n as [|n IH]; intros i r; cbn [sample_walk]; [lia|].
  destruct (dle r (probs !!! i)); [lia|].
  specialize (IH (S i) (r - probs !!! i)). lia.
Qed.

(** A double equal to 0 is a zero. *)
Lemma deq_zero_inv (x : double) :
  deq x 0 = true -> exists s, Prim2SF x = S754_zero s.
Proof.
  rewrite deq_compare, Prim2SF_zero.
  destruct (Prim2SF x) as [s|s| |s m e]; cbn [SFcompare];
    try destruct s; try discriminate; eauto.
Qed.

(** A positive draw never selects a fold of probability 0: the walk stops
    at the fold entry only for a draw that is not above it.  The action type
    returned is at most [NUM_ACTION_TYPES]. *)
Theorem positive_draw_skips_zero_fold :
  forall (probs : list double) (r : double),
    dgt r 0 = true ->
    deq (probs !!! a_fold) 0 = true ->
    type (sample probs r) <> a_fold /\
    (type (sample probs r) <= NUM_ACTION_TYPES)%nat.
Proof.
  intros probs r Hr Hf. unfold sample. cbn [type].
  split; [|pose proof (sample_walk_ge probs (NUM_ACTION_TYPES - a_fold) a_fold r);
           unfold NUM_ACTION_TYPES, a_fold in *; lia].
  change (NUM_ACTION_TYPES - a_fold)%nat with 3%nat. cbn [sample_walk].
  assert (dle r (probs !!! a_fold) = false) as ->.
  { destruct (deq_zero_inv _ Hf) as [s Es].
    rewrite dgt_compare, Prim2SF_zero in Hr. rewrite dle_compare, Es.
    destruct (Prim2SF r) as [sr|sr| |sr mr er]; cbn [SFcompare] in *;
      try destruct sr; try discriminate; reflexivity. }
  destruct (dle _ _); [discriminate|]. destruct (dle _ _); discriminate.
Qed.

Lemma positive_draw_skips_zero_fold_witness :
  type (sample example_probs 0.125) <> a_fold /\
  (type (sample example_probs 0.125) <= NUM_ACTION_TYPES)%nat.
Proof.
  apply (positive_draw_skips_zero_fold example_probs 0.125); reflexivity.
Defined.

(** Arithmetic and comparisons on a NaN. *)
Lemma is_nan_sub_l (x y : double) : is_nan x = true -> is_nan (x - y) = true.
Proof.
  rewrite !is_nan_Prim2SF, sub_spec. intros ->. reflexivity.
Qed.

Lemma is_nan_sub_r (x y : double) : is_nan y = true -> is_nan (x - y) = true.
Proof.
  rewrite !is_nan_Prim2SF, sub_spec. intros ->.
  by destruct (Prim2SF x).
Qed.

Lemma dle_nan_l (x y : double) : is_nan x = true -> dle x y = false.
Proof. rewrite is_nan_Prim2SF, dle_compare. intros ->. reflexivity. Qed.

Lemma dle_nan_r (x y : double) : is_nan y = true -> dle x y = false.
Proof.
  rewrite is_nan_Prim2SF, dle_compare. intros ->. by destruct (Prim2SF x).
Qed.

(** A NaN parameter reaches the sampler: at the third seat, holding a King
    at a decision point that is not an opening one and where the second
    action was not a fold (situation 4), a player whose slot c34 is a NaN
    returns, whatever the draw, an action of type [NUM_ACTION_TYPES], which
    is not an action type. *)
Theorem action_on_nan_parameter :
  forall (L : ParamLayout) (T : StrategyTables)
         (player : kuhn_3p_equilibrium_player_t) (state : State) (r : double),
    JACK_RANK <> KING_RANK ->
    QUEEN_RANK <> KING_RANK ->
    type (action_ state 0 0) <> a_call ->
    type (action_ state 0 1) <> a_fold ->
    is_nan (params player !!! C34_INDEX) = true ->
    action player 2 KING_RANK state r = Some {| type := NUM_ACTION_TYPES; size := 0 |}.
Proof.
  intros L T player state r HJ HQ H0 H1 Hnan.
  unfold action, action_probs. cbn [Nat.eqb].
  unfold action_probs_p2, by_rank.
  apply not_eq_sym, Nat.eqb_neq in H0. apply not_eq_sym, Nat.eqb_neq in H1.
  apply Z.eqb_neq in HJ, HQ. rewrite H0, H1, HJ, HQ, Z.eqb_refl.
  cbn [mbind option_bind]. rewrite set_probs_triple by reflexivity.
  cbn [mbind option_bind]. f_equal. unfold sample. f_equal.
  set (x := params player !!! C34_INDEX) in *.
  change (NUM_ACTION_TYPES - a_fold)%nat with 3%nat. unfold a_fold.
  cbn [sample_walk].
  change ([1 - x; x; 0] !!! 0%nat) with (1 - x).
  change ([1 - x; x; 0] !!! 1%nat) with x.
  change ([1 - x; x; 0] !!! 2%nat) with 0.
  rewrite (dle_nan_r r (1 - x)) by (by apply is_nan_sub_r).
  rewrite (dle_nan_r (r - (1 - x)) x) by exact Hnan.
  rewrite (dle_nan_l (r - (1 - x) - x) 0) by (by apply is_nan_sub_r).
  reflexivity.
Qed.

Lemma action_on_nan_parameter_witness :
  action (L := example_layout) (T := example_tables) (player_of nan_c34_params)
    2 11 (history [a_raise; a_call]) 0.5
  = Some {| type := 3; size := 0 |}.
Proof.
  apply (action_on_nan_parameter example_layout example_tables
           (player_of nan_c34_params) (history [a_raise; a_call]) 0.5);
    first [reflexivity | discriminate].
Defined.

(** * Construction of a player *)

Lemma copy_params_spec (src : list double) (n i : nat) (dst : list double) :
  (i + n <= length src)%nat -> (i + n <= length dst)%nat ->
  exists d, copy_params src n i dst = Some d /\
            length d = length dst /\
            (forall j, (i <= j < i + n)%nat -> d !! j = src !! j) /\
            (forall j, (j < i \/ i + n <= j)%nat -> d !! j = dst !! j).
Proof.
  revert i dst. induction n as [|n IH]; intros i dst Hs Hd; cbn [copy_params].
  - exists dst. repeat split; try done. intros j Hj; lia.
  - destruct (lookup_lt_is_Some_2 src i) as [x Ex]; [lia|].
    rewrite Ex. cbn [mbind option_bind].
    destruct (IH (S i) (<[i := x]> dst)) as (d & -> & Hlen & Hin & Hout);
      [lia|rewrite length_insert; lia|].
    exists d. rewrite length_insert in Hlen.
    split; [reflexivity|]. split; [exact Hlen|]. split.
    + intros j Hj. destruct (decide (j = i)) as [->|Hne].
      * rewrite Hout by lia. rewrite list_lookup_insert_eq by lia. by rewrite Ex.
      * apply Hin. lia.
    + intros j Hj. rewrite Hout by lia. apply list_lookup_insert_ne. lia.
Qed.

Lemma copy_params_short (src : list double) (n i : nat) (dst : list double) :
  (length src < i + n)%nat -> (0 < n)%nat -> copy_params src n i dst = None.
Proof.
  revert i dst. induction n as [|n IH]; intros i dst Hs Hn; [lia|].
  cbn [copy_params]. destruct (src !! i) as [x|] eqn:Ex; [|reflexivity].
  cbn [mbind option_bind]. apply lookup_lt_Some in Ex.
  apply IH; lia.
Qed.

Lemma copy_params_take (src : list double) (n : nat) :
  (n <= length src)%nat ->
  copy_params src n 0 (replicate n 0) = Some (take n src).
Proof.
  intros Hn.
  destruct (copy_params_spec src n 0 (replicate n 0)) as (d & -> & Hlen & Hin & _);
    [lia|rewrite length_replicate; lia|].
  f_equal. rewrite length_replicate in Hlen.
  apply list_eq. intros j. destruct (decide (j < n)%nat) as [Hj|Hj].
  - rewrite Hin by lia. by rewrite lookup_take_lt.
  - rewrite !lookup_ge_None_2; [done|rewrite length_take; lia|lia].
Qed.

Lemma init_private_info_eq `{L : ParamLayout}
    (game_def : Game) (params_in : list double) (seed_in : Z) :
  is_3p_kuhn_poker_game game_def = true ->
  (NUM_PARAMS <= length params_in)%nat ->
  init_private_info game_def params_in seed_in
  = match check_params {| params := take NUM_PARAMS params_in; seed := seed_in |} with
    | (player, Returned _) => Some (Returned player)
    | (_, Thrown message) => Some (Thrown message)
    end.
Proof.
  intros Hgame Hlen. unfold init_private_info. rewrite Hgame. cbn [negb].
  by rewrite copy_params_take.
Qed.

Lemma init_private_info_short `{L : ParamLayout}
    (game_def : Game) (params_in : list double) (seed_in : Z) :
  layout_ok L = true ->
  is_3p_kuhn_poker_game game_def = true ->
  (length params_in < NUM_PARAMS)%nat ->
  init_private_info game_def params_in seed_in = None.
Proof.
  intros HL Hgame Hlen. unfold init_private_info. rewrite Hgame. cbn [negb].
  rewrite copy_params_short; [reflexivity|lia|].
  pose proof (layout_bound HL B11_INDEX
                ltac:(unfold free_indices, derived_indices; cbn [app]; in_list)).
  lia.
Qed.

(** Whatever its outcome, [check_params] keeps the seed, the number of
    slots and the free slots. *)
Lemma check_params_shape `{L : ParamLayout}
    (pl pl' : kuhn_3p_equilibrium_player_t) (r : outcome unit) :
  layout_ok L = true -> player_ok pl ->
  check_params pl = (pl', r) ->
  seed pl' = seed pl /\ length (params pl') = NUM_PARAMS /\
  (forall i, i ∈ free_indices -> params pl' !!! i = params pl !!! i).
Proof.
  intros HL Hpl E. rewrite check_params_eq in E.
  assert (forall ql, check_range_loop NUM_PARAMS 0 ql = (pl', r) -> pl' = ql) as Hloop.
  { intros ql Eq. rewrite check_range_loop_eq in Eq. by inversion Eq. }
  destruct (sub_family_number (params pl !!! C11_INDEX)) as [|[|[|[|k]]]].
  - inversion E; subst. by repeat split.
  - destruct (check_family_1_params_cases pl) as [[i Ei]|Ei]; rewrite Ei in E.
    + inversion E; subst. by repeat split.
    + apply Hloop in E. subst pl'. cbn [params seed with_params].
      rewrite (stores_are_with_derived HL).
      repeat split.
      * by apply length_with_derived.
      * intros i Hi. apply with_derived_other, (free_not_derived HL), Hi.
  - apply Hloop in E. subst. by repeat split.
  - apply Hloop in E. subst. by repeat split.
  - inversion E; subst. by repeat split.
Qed.

(** The errors of [init_private_info].  A game that is not three-player
    Kuhn poker is refused before the parameters are looked at.  For the Kuhn
    game, the caller's array is read at every index below [NUM_PARAMS]: a
    shorter array is read past its end; otherwise the outcome is that of
    [check_params] on the first [NUM_PARAMS] entries, an error being passed
    on with its message. *)
Theorem init_private_info_outcome :
  forall (L : ParamLayout) (game_def : Game) (params_in : list double) (seed_in : Z),
    layout_ok L = true ->
    (is_3p_kuhn_poker_game game_def = false ->
       init_private_info game_def params_in seed_in = Some (Thrown err_non_kuhn_game)) /\
    (is_3p_kuhn_poker_game game_def = true ->
       (length params_in < NUM_PARAMS)%nat ->
       init_private_info game_def params_in seed_in = None) /\
    (is_3p_kuhn_poker_game game_def = true ->
       (NUM_PARAMS <= length params_in)%nat ->
       init_private_info game_def params_in seed_in
       = match check_params {| params := take NUM_PARAMS params_in; seed := seed_in |} with
         | (player, Returned _) => Some (Returned player)
         | (_, Thrown message) => Some (Thrown message)
         end).
Proof.
  intros L game_def params_in seed_in HL. split; [|split].
  - intros Hgame. unfold init_private_info. by rewrite Hgame.
  - by apply init_private_info_short.
  - by apply init_private_info_eq.
Qed.

Lemma init_private_info_outcome_witness :
  init_private_info (H := example_layout) two_player_game [] 42
    = Some (Thrown err_non_kuhn_game) /\
  init_private_info (H := example_layout) kuhn_3p_game [0.125; 0.25; 0.5; 0; 0.25; 0.5] 42
    = None /\
  init_private_info (H := example_layout) kuhn_3p_game example_params 42
    = Some (Returned example_validated).
Proof.
  destruct (init_private_info_outcome example_layout two_player_game [] 42 eq_refl)
    as (H1 & _ & _).
  destruct (init_private_info_outcome example_layout kuhn_3p_game
              [0.125; 0.25; 0.5; 0; 0.25; 0.5] 42 eq_refl) as (_ & H2 & _).
  destruct (init_private_info_outcome example_layout kuhn_3p_game
              example_params 42 eq_refl) as (_ & _ & H3).
  split; [|split].
  - apply H1. reflexivity.
  - apply H2; [reflexivity|cbn; lia].
  - rewrite H3; [reflexivity|reflexivity|cbn; lia].
Defined.

(** A player that [init_private_info] returns: the game is three-player
    Kuhn poker, the player holds the seed and [NUM_PARAMS] slots, its free
    slots are the caller's, and no slot is below 0 or above 1. *)
Theorem init_private_info_returned :
  forall (L : ParamLayout) (game_def : Game) (params_in : list double) (seed_in : Z)
         (player : kuhn_3p_equilibrium_player_t),
    layout_ok L = true ->
    init_private_info game_def params_in seed_in = Some (Returned player) ->
    is_3p_kuhn_poker_game game_def = true /\
    seed player = seed_in /\
    length (params player) = NUM_PARAMS /\
    (forall i, i ∈ free_indices -> params player !!! i = params_in !!! i) /\
    (forall i, (i < NUM_PARAMS)%nat -> out_of_range 0 1 (params player !!! i) = false).
Proof.
  intros L game_def params_in seed_in player HL E.
  destruct (is_3p_kuhn_poker_game game_def) eqn:Hgame.
  2:{ unfold init_private_info in E. rewrite Hgame in E. discriminate E. }
  split; [reflexivity|].
  destruct (le_lt_dec NUM_PARAMS (length params_in)) as [Hlen|Hlen].
  2:{ rewrite (init_private_info_short game_def params_in seed_in HL Hgame Hlen) in E.
      discriminate E. }
  rewrite (init_private_info_eq game_def params_in seed_in Hgame Hlen) in E.
  set (pl0 := {| params := take NUM_PARAMS params_in; seed := seed_in |}) in *.
  assert (player_ok pl0) as Hok.
  { unfold player_ok, pl0. cbn [params]. rewrite length_take. lia. }
  destruct (check_params pl0) as [pl' [[]|msg]] eqn:Ec; [|discriminate E].
  injection E as ->.
  destruct (check_params_shape pl0 player (Returned tt) HL Hok Ec)
    as (Hseed & Hlen' & Hfree).
  repeat split.
  - exact Hseed.
  - exact Hlen'.
  - intros i Hi. rewrite (Hfree i Hi). unfold pl0. cbn [params].
    apply lookup_total_take_lt.
    pose proof (layout_bound HL i ltac:(apply elem_of_app; left; exact Hi)). lia.
  - intros i Hi.
    destruct (check_params_returned pl0 player Ec) as [_ Hex].
    rewrite existsb_seq_false in Hex. exact (Hex i Hi).
Qed.

Lemma init_private_info_returned_witness :
  is_3p_kuhn_poker_game kuhn_3p_game = true /\
  seed example_validated = 42%Z /\
  length (params example_validated) = 10%nat /\
  (forall i, i ∈ free_indices (H := example_layout) ->
     params example_validated !!! i = example_params !!! i) /\
  (forall i, (i < 10)%nat -> out_of_range 0 1 (params example_validated !!! i) = false).
Proof.
  apply (init_private_info_returned example_layout kuhn_3p_game example_params 42
           example_validated); reflexivity.
Defined.

(** * The walk of the sampler on the vectors of the engines *)

Local Open Scope Z_scope.

(** ** Order and value of binary64 numbers *)

Lemma bounded_normal (m : positive) (e : Z) :
  bounded prec emax m e = true ->
  -1074 <= e <= 971 /\ Zpos m < 2 ^ 53 /\ (e = -1074 \/ 2 ^ 52 <= Zpos m).
Proof.
  intros H. destruct (bounded_facts m e H) as (He & Hd & Hm & Hn).
  split; [exact He|]. split; [exact Hm|].
  destruct Hn as [Hn|Hn]; [left; exact Hn|right].
  pose proof (digits2_pos_bounds m) as [B1 _]. rewrite Hn in B1. exact B1.
Qed.

Lemma scaled_value_pos (m : positive) (e : Z) : -1074 <= e -> 0 < scaled_value m e.
Proof.
  intros He. unfold scaled_value.
  pose proof (pow2_pos (e + 1074) ltac:(lia)). lia.
Qed.

(** A number with the smaller exponent is the smaller number. *)
Lemma scaled_value_exponent_lt (ma mb : positive) (ea eb : Z) :
  bounded prec emax ma ea = true -> bounded prec emax mb eb = true ->
  ea < eb -> scaled_value ma ea < scaled_value mb eb.
Proof.
  intros Ha Hb Hlt.
  destruct (bounded_normal ma ea Ha) as (Hea & Hma & _).
  destruct (bounded_normal mb eb Hb) as (Heb & _ & [Hn|Hn]); [lia|].
  unfold scaled_value.
  assert (2 ^ (eb + 1074) = 2 ^ (eb - ea) * 2 ^ (ea + 1074)) as E.
  { rewrite <- Z.pow_add_r by lia. f_equal. lia. }
  pose proof (pow2_pos (ea + 1074) ltac:(lia)) as Hp.
  pose proof (pow2_le 1 (eb - ea) ltac:(lia)) as H1.
  change (2 ^ 1) with 2 in H1.
  change (2 ^ 53) with 9007199254740992 in Hma.
  change (2 ^ 52) with 4503599627370496 in Hn.
  rewrite E. nia.
Qed.

Lemma compare_value (ma mb : positive) (ea eb : Z) :
  bounded prec emax ma ea = true -> bounded prec emax mb eb = true ->
  SFcompare (S754_finite false ma ea) (S754_finite false mb eb)
  = Some (scaled_value ma ea ?= scaled_value mb eb).
Proof.
  intros Ha Hb. cbn [SFcompare]. f_equal.
  destruct (Z.compare_spec ea eb) as [E|E|E].
  - subst eb. unfold scaled_value.
    destruct (bounded_normal ma ea Ha) as (Hea & _ & _).
    pose proof (pow2_pos (ea + 1074) ltac:(lia)) as Hp.
    rewrite <- (Zmult_compare_compat_r (Zpos ma) (Zpos mb)) by lia. reflexivity.
  - symmetry. apply Z.compare_lt_iff. by apply scaled_value_exponent_lt.
  - symmetry. apply Z.compare_gt_iff. by apply scaled_value_exponent_lt.
Qed.

Lemma bounded_intro (m : positive) (e : Z) :
  fexp prec emax (Zpos (digits2_pos m) + e) = e -> e <= 971 ->
  bounded prec emax m e = true.
Proof.
  intros H1 H2. unfold bounded, canonical_mantissa.
  apply andb_true_iff. split; [by apply Z.eqb_eq|].
  change (emax - prec) with 971. by apply Z.leb_le.
Qed.

(** Rounding to nearest does not pass a multiple of the unit. *)
Lemma rne_le_multiple (D k N : Z) :
  0 <= D -> 1 <= k -> D <= N * 2 ^ k -> rne D k <= N.
Proof.
  intros HD Hk Hle.
  pose proof (pow2_pos k ltac:(lia)) as Hp.
  pose proof (Z.div_mod D (2 ^ k) ltac:(lia)) as Hdm.
  pose proof (Z.mod_pos_bound D (2 ^ k) ltac:(lia)) as Hmod.
  unfold rne. cbv zeta.
  set (q := D / 2 ^ k) in *. set (rho := D mod 2 ^ k) in *.
  destruct (Z.ltb_spec (2 * rho) (2 ^ k)) as [H1|H1].
  - nia.
  - assert (q + 1 <= N) by nia.
    destruct (Z.ltb_spec (2 ^ k) (2 * rho)); [lia|].
    destruct (Z.even q); lia.
Qed.

(** Monotonicity of the rounding: the rounding of a value that is at most a
    binary64 number is at most this number. *)
Lemma binary_round_below (D m : positive) (ez e : Z) :
  -1074 <= ez ->
  Zpos (digits2_pos D) + ez <= 1 ->
  bounded prec emax m e = true ->
  scaled_value D ez <= scaled_value m e ->
  exists (mr : positive) (er : Z),
    binary_round prec emax false D ez = S754_finite false mr er /\
    bounded prec emax mr er = true /\
    scaled_value mr er <= scaled_value m e.
Proof.
  intros Hez Hsmall Hb Hle.
  pose proof (digits2_pos_bounds D) as [B1 B2].
  set (d := Zpos (digits2_pos D)) in *.
  destruct (bounded_normal m e Hb) as (He & Hm & _).
  destruct (Z_le_gt_dec d 53) as [Hd|Hd].
  - destruct (binary_round_exact false D ez) as (mz & Eq & Ez).
    { fold d. rewrite fexp64. lia. }
    { fold d. rewrite fexp64. lia. }
    fold d in Eq, Ez. rewrite fexp64 in Eq, Ez.
    set (et := Z.max (d + ez - 53) (-1074)) in *.
    assert (et <= ez) as Het by (unfold et; lia).
    exists mz, et. split; [exact Eq|]. split.
    + apply bounded_intro; [|unfold et; lia].
      rewrite (digits2_pos_scale D mz (ez - et)) by (lia || exact Ez).
      fold d. replace (d + (ez - et) + et) with (d + ez) by lia.
      rewrite fexp64. reflexivity.
    + replace (scaled_value mz et) with (scaled_value D ez); [exact Hle|].
      unfold scaled_value. rewrite Ez, <- Z.mul_assoc, <- Z.pow_add_r by (unfold et; lia).
      f_equal. f_equal. lia.
  - set (k := d - 53) in *.
    assert (1 <= k) as Hk by (unfold k; lia).
    assert (k = fexp prec emax (Zpos (digits2_pos D) + ez) - ez) as Efexp.
    { fold d. rewrite fexp64. unfold k. lia. }
    destruct (rne_bounds (Zpos D) k ltac:(lia) Hk) as [Hq _].
    assert (2 ^ (d - 1) = 2 ^ 52 * 2 ^ k) as Edl.
    { rewrite <- Z.pow_add_r by lia. f_equal. unfold k. lia. }
    assert (2 ^ d = 2 ^ 53 * 2 ^ k) as Edu.
    { rewrite <- Z.pow_add_r by lia. f_equal. unfold k. lia. }
    pose proof (pow2_pos k ltac:(lia)) as Hpk.
    assert (2 ^ 52 <= Zpos D / 2 ^ k < 2 ^ 53) as Hdiv.
    { split.
      - apply Z.div_le_lower_bound; lia.
      - apply Z.div_lt_upper_bound; lia. }
    change (2 ^ 52) with 4503599627370496 in *.
    change (2 ^ 53) with 9007199254740992 in *.
    set (P := 2 ^ (ez + 1074)) in *.
    assert (0 < P) as HP by (apply pow2_pos; lia).
    assert (2 ^ (ez + k + 1074) = 2 ^ k * P) as EU.
    { unfold P. rewrite <- Z.pow_add_r by lia. f_equal. lia. }
    unfold scaled_value in Hle. fold P in Hle.
    (* the exponent of the bound is at least that of the rounding *)
    assert (ez + k <= e) as Hee.
    { destruct (Z_le_gt_dec (ez + k) e) as [H|H]; [exact H|exfalso].
      assert (2 ^ (ez + k + 1074) = 2 ^ (ez + k - e) * 2 ^ (e + 1074)) as E1.
      { rewrite <- Z.pow_add_r by lia. f_equal. lia. }
      pose proof (pow2_le 1 (ez + k - e) ltac:(lia)) as H1.
      change (2 ^ 1) with 2 in H1.
      pose proof (pow2_pos (e + 1074) ltac:(lia)) as Hpe.
      nia. }
    set (N := Zpos m * 2 ^ (e - (ez + k))).
    assert (Zpos m * 2 ^ (e + 1074) = N * (2 ^ k * P)) as EN.
    { unfold N. rewrite <- EU, <- Z.mul_assoc, <- Z.pow_add_r by lia.
      f_equal. f_equal. lia. }
    assert (rne (Zpos D) k <= N) as Hrne.
    { apply rne_le_multiple; [lia|exact Hk|]. rewrite EN in Hle. nia. }
    set (m2 := rne (Zpos D) k) in *.
    destruct (Z_lt_ge_dec m2 9007199254740992) as [Hnocarry|Hcarry].
    + destruct m2 as [|m2p|m2p] eqn:Em2; try lia.
      assert (Zpos (digits2_pos m2p) = 53) as Hd2.
      { apply digits2_pos_unique; [|lia].
        change (2 ^ (53 - 1)) with 4503599627370496.
        change (2 ^ 53) with 9007199254740992. lia. }
      exists m2p, (ez + k). split; [|split].
      * rewrite binary_round_unshifted by (fold d; rewrite fexp64; unfold k; lia).
        apply binary_round_aux_round; try assumption; unfold k; lia.
      * apply bounded_intro; [rewrite Hd2, fexp64|]; unfold k; lia.
      * unfold scaled_value. rewrite EU, EN. nia.
    + assert (m2 = 9007199254740992) as Em2 by lia.
      exists 4503599627370496%positive, (ez + k + 1). split; [|split].
      * rewrite binary_round_unshifted by (fold d; rewrite fexp64; unfold k; lia).
        apply binary_round_aux_carry; try assumption; unfold k; lia.
      * apply bounded_intro; [change (Zpos (digits2_pos 4503599627370496)) with 53;
                              rewrite fexp64|]; unfold k; lia.
      * unfold scaled_value.
        replace (ez + k + 1 + 1074) with (ez + k + 1074 + 1) by lia.
        rewrite pow2_succ by lia. rewrite EU, EN. nia.
Qed.

(** ** Subtraction and addition of positive binary64 numbers *)

Lemma SFsub_finite_gt (mr mq : positive) (er eq : Z) :
  -1074 <= er -> -1074 <= eq ->
  scaled_value mq eq < scaled_value mr er ->
  exists D : positive,
    SF64sub (S754_finite false mr er) (S754_finite false mq eq)
      = binary_round prec emax false D (Z.min er eq) /\
    scaled_value D (Z.min er eq) = scaled_value mr er - scaled_value mq eq.
Proof.
  intros Her Heq Hlt. unfold SF64sub, SFsub. cbv zeta. cbn [cond_Zopp].
  set (ez := Z.min er eq).
  destruct (shl_align_spec mr er ez ltac:(unfold ez; lia)) as [E1 _].
  destruct (shl_align_spec mq eq ez ltac:(unfold ez; lia)) as [E2 _].
  rewrite E1, E2.
  assert (-1074 <= ez) as Hez by (unfold ez; lia).
  pose proof (pow2_pos (ez + 1074) ltac:(lia)) as HP.
  assert ((Zpos mr * 2 ^ (er - ez) - Zpos mq * 2 ^ (eq - ez)) * 2 ^ (ez + 1074)
          = scaled_value mr er - scaled_value mq eq) as EV.
  { unfold scaled_value. rewrite Z.mul_sub_distr_r, <- !Z.mul_assoc.
    rewrite <- !Z.pow_add_r by (unfold ez; lia).
    replace (er - ez + (ez + 1074)) with (er + 1074) by lia.
    replace (eq - ez + (ez + 1074)) with (eq + 1074) by lia. reflexivity. }
  destruct (Zpos mr * 2 ^ (er - ez) - Zpos mq * 2 ^ (eq - ez)) as [|D|D] eqn:ED;
    try nia.
  exists D. split; [reflexivity|]. exact EV.
Qed.

Lemma SFadd_finite_value (m1 m2 : positive) (e1 e2 : Z) :
  -1074 <= e1 -> -1074 <= e2 ->
  exists S : positive,
    SF64add (S754_finite false m1 e1) (S754_finite false m2 e2)
      = binary_round prec emax false S (Z.min e1 e2) /\
    scaled_value S (Z.min e1 e2) = scaled_value m1 e1 + scaled_value m2 e2.
Proof.
  intros H1 H2. rewrite SFadd_finite.
  set (ez := Z.min e1 e2).
  destruct (shl_align_spec m1 e1 ez ltac:(unfold ez; lia)) as [E1 _].
  destruct (shl_align_spec m2 e2 ez ltac:(unfold ez; lia)) as [E2 _].
  eexists. split; [reflexivity|].
  unfold scaled_value. rewrite Pos2Z.inj_add, E1, E2.
  rewrite Z.mul_add_distr_r, <- !Z.mul_assoc.
  rewrite <- !Z.pow_add_r by (unfold ez; lia).
  replace (e1 - ez + (ez + 1074)) with (e1 + 1074) by lia.
  replace (e2 - ez + (ez + 1074)) with (e2 + 1074) by lia. reflexivity.
Qed.

(** A value below [2 ^ 1074] units, that is below 1, has few digits. *)
Lemma digits_of_small (D : positive) (ez : Z) :
  -1074 <= ez -> scaled_value D ez < 2 ^ 1074 ->
  Zpos (digits2_pos D) + ez <= 0.
Proof.
  intros Hez Hlt. pose proof (digits2_pos_bounds D) as [B1 _].
  set (d := Zpos (digits2_pos D)) in *.
  destruct (Z_le_gt_dec (d + ez) 0) as [H|H]; [exact H|exfalso].
  unfold scaled_value in Hlt.
  assert (2 ^ 1074 <= 2 ^ (d - 1) * 2 ^ (ez + 1074)) as Hge.
  { rewrite <- Z.pow_add_r by lia. apply pow2_le. lia. }
  pose proof (pow2_pos (ez + 1074) ltac:(lia)) as HP.
  nia.
Qed.

(** The largest binary64 number below 1. *)
Lemma pred_one_bounded : bounded prec emax 9007199254740991 (-53) = true.
Proof. reflexivity. Qed.

Lemma scaled_value_pred_one :
  scaled_value 9007199254740991 (-53) = 2 ^ 1074 - 2 ^ 1021.
Proof. reflexivity. Qed.

Lemma scaled_value_one : scaled_value 4503599627370496 (-52) = 2 ^ 1074.
Proof. reflexivity. Qed.

(** A binary64 number below 1 is at most the predecessor of 1. *)
Lemma below_one_value (m : positive) (e : Z) :
  bounded prec emax m e = true ->
  scaled_value m e < 2 ^ 1074 ->
  scaled_value m e <= 2 ^ 1074 - 2 ^ 1021.
Proof.
  intros Hb Hlt. destruct (bounded_normal m e Hb) as (He & Hm & Hn).
  unfold scaled_value in *.
  assert (2 ^ 1074 = 2 ^ 53 * 2 ^ 1021) as E74
    by (rewrite <- Z.pow_add_r by lia; reflexivity).
  pose proof (pow2_pos 1021 ltac:(lia)) as P21.
  destruct (Z_le_gt_dec e (-53)) as [Hs|Hs].
  - pose proof (pow2_le (e + 1074) 1021 ltac:(lia)) as Hle.
    pose proof (pow2_pos (e + 1074) ltac:(lia)) as HP.
    rewrite E74. generalize dependent (2 ^ 1021). generalize dependent (2 ^ (e + 1074)).
    generalize dependent (2 ^ 53). intros. nia.
  - exfalso. destruct Hn as [Hn|Hn]; [lia|].
    assert (2 ^ 1074 <= 2 ^ 52 * 2 ^ (e + 1074)) as Hge.
    { rewrite <- Z.pow_add_r by lia. apply pow2_le. lia. }
    pose proof (pow2_pos (e + 1074) ltac:(lia)) as HP.
    generalize dependent (2 ^ 1074). generalize dependent (2 ^ (e + 1074)).
    generalize dependent (2 ^ 52). intros. nia.
Qed.

(** Two positive binary64 numbers whose rounded sum is 1 have an exact sum
    above the predecessor of 1. *)
Lemma sum_one_value (mx my : positive) (ex ey : Z) :
  bounded prec emax mx ex = true -> bounded prec emax my ey = true ->
  SF64add (S754_finite false mx ex) (S754_finite false my ey) = SF_one ->
  2 ^ 1074 - 2 ^ 1021 < scaled_value mx ex + scaled_value my ey.
Proof.
  intros Hx Hy Hsum.
  destruct (bounded_normal mx ex Hx) as (Hex & _ & _).
  destruct (bounded_normal my ey Hy) as (Hey & _ & _).
  destruct (SFadd_finite_value mx my ex ey ltac:(lia) ltac:(lia)) as (S & ES & EV).
  rewrite ES in Hsum. rewrite <- EV.
  destruct (Z_lt_le_dec (2 ^ 1074 - 2 ^ 1021) (scaled_value S (Z.min ex ey)))
    as [H|H]; [exact H|exfalso].
  pose proof (pow2_pos 1021 ltac:(lia)) as P21.
  assert (-1074 <= Z.min ex ey) as Hez by lia.
  assert (scaled_value S (Z.min ex ey) < 2 ^ 1074) as Hsmall by lia.
  pose proof (digits_of_small S _ Hez Hsmall) as Hd.
  rewrite <- scaled_value_pred_one in H.
  destruct (binary_round_below S 9007199254740991 (Z.min ex ey) (-53)
              Hez ltac:(lia) pred_one_bounded H) as (mr & er & ER & _ & Hle).
  rewrite ER in Hsum. unfold SF_one in Hsum.
  injection Hsum as -> ->.
  rewrite scaled_value_one, scaled_value_pred_one in Hle. lia.
Qed.

(** One step of the walk in binary64: when the draw [r] is below 1 and
    above [x], and [x + y] rounds to 1, the reduced draw [r - x] is a
    number that is at most [y]. *)
Lemma walk_step_value (mr mx my : positive) (er ex ey : Z) :
  bounded prec emax mr er = true ->
  bounded prec emax mx ex = true ->
  bounded prec emax my ey = true ->
  SF64add (S754_finite false mx ex) (S754_finite false my ey) = SF_one ->
  scaled_value mr er < 2 ^ 1074 ->
  scaled_value mx ex < scaled_value mr er ->
  exists (md : positive) (ed : Z),
    SF64sub (S754_finite false mr er) (S754_finite false mx ex)
      = S754_finite false md ed /\
    bounded prec emax md ed = true /\
    scaled_value md ed <= scaled_value my ey.
Proof.
  intros Hr Hx Hy Hsum Hr1 Hxr.
  destruct (bounded_normal mr er Hr) as (Her & _ & _).
  destruct (bounded_normal mx ex Hx) as (Hex & _ & _).
  pose proof (below_one_value mr er Hr Hr1) as Hpred.
  pose proof (sum_one_value mx my ex ey Hx Hy Hsum) as Hs.
  pose proof (scaled_value_pos mx ex ltac:(lia)) as Hxpos.
  destruct (SFsub_finite_gt mr mx er ex ltac:(lia) ltac:(lia) Hxr) as (D & ED & EV).
  assert (-1074 <= Z.min er ex) as Hez by lia.
  assert (scaled_value D (Z.min er ex) < 2 ^ 1074) as Hsmall by lia.
  pose proof (digits_of_small D _ Hez Hsmall) as Hd.
  destruct (binary_round_below D my (Z.min er ex) ey Hez ltac:(lia) Hy ltac:(lia))
    as (md & ed & ER & Hb & Hle).
  exists md, ed. rewrite ED. auto.
Qed.

(** ** Operations with a zero *)

Lemma SFadd_zero_l (s sy : bool) (m : positive) (e : Z) :
  SF64add (S754_zero s) (S754_finite sy m e) = S754_finite sy m e.
Proof. reflexivity. Qed.

Lemma SFadd_zero_r (s sx : bool) (m : positive) (e : Z) :
  SF64add (S754_finite sx m e) (S754_zero s) = S754_finite sx m e.
Proof. reflexivity. Qed.

Lemma SFsub_zero_r (s sx : bool) (m : positive) (e : Z) :
  SF64sub (S754_finite sx m e) (S754_zero s) = S754_finite sx m e.
Proof. reflexivity. Qed.

(** ** The value of a non-negative binary64 number *)

Lemma nonneg_value_cases (x : spec_float) (v : Z) :
  nonneg_value x = Some v ->
  (exists s, x = S754_zero s /\ v = 0) \/
  (exists m e, x = S754_finite false m e /\ bounded prec emax m e = true /\
               v = scaled_value m e /\ 0 < v).
Proof.
  destruct x as [s|s| |s m e]; cbn [nonneg_value]; try discriminate.
  - intros [= <-]. left. by exists s.
  - destruct s; [discriminate|].
    destruct (bounded prec emax m e) eqn:Hb; [|discriminate].
    intros [= <-]. right. exists m, e.
    split; [reflexivity|]. split; [exact Hb|]. split; [reflexivity|].
    apply scaled_value_pos. destruct (bounded_normal m e Hb) as (He & _). lia.
Qed.

Lemma nonneg_value_finite (m : positive) (e : Z) :
  bounded prec emax m e = true ->
  nonneg_value (S754_finite false m e) = Some (scaled_value m e).
Proof. intros Hb. cbn [nonneg_value]. by rewrite Hb. Qed.

(** The comparison of two non-negative numbers is that of their values. *)
Lemma compare_nonneg_value (x y : spec_float) (a b : Z) :
  nonneg_value x = Some a -> nonneg_value y = Some b ->
  SFcompare x y = Some (a ?= b).
Proof.
  intros Hx Hy.
  destruct (nonneg_value_cases x a Hx) as [(sx & -> & ->)|(mx & ex & -> & Bx & -> & Px)];
    destruct (nonneg_value_cases y b Hy) as [(sy & -> & ->)|(my & ey & -> & By & -> & Py)].
  - reflexivity.
  - cbn [SFcompare]. f_equal. symmetry. by apply Z.compare_lt_iff.
  - cbn [SFcompare]. f_equal. symmetry. by apply Z.compare_gt_iff.
  - by apply compare_value.
Qed.

(** ** Rounding from above *)

Lemma rne_ge_multiple (D k N : Z) :
  0 <= D -> 1 <= k -> N * 2 ^ k <= D -> N <= rne D k.
Proof.
  intros HD Hk Hle.
  pose proof (pow2_pos k ltac:(lia)) as Hp.
  destruct (rne_bounds D k HD Hk) as [[Hq _] _].
  assert (N <= D / 2 ^ k) by (apply Z.div_le_lower_bound; lia).
  lia.
Qed.

(** A value below [2 ^ (1074 + k)] units has at most [k - ez] digits. *)
Lemma digits_of_bounded (D : positive) (ez k : Z) :
  -1074 <= ez -> 0 <= k -> scaled_value D ez < 2 ^ (1074 + k) ->
  Zpos (digits2_pos D) + ez <= k.
Proof.
  intros Hez Hk Hlt. pose proof (digits2_pos_bounds D) as [B1 _].
  set (d := Zpos (digits2_pos D)) in *.
  destruct (Z_le_gt_dec (d + ez) k) as [H|H]; [exact H|exfalso].
  unfold scaled_value in Hlt.
  assert (2 ^ (1074 + k) <= 2 ^ (d - 1) * 2 ^ (ez + 1074)) as Hge.
  { rewrite <- Z.pow_add_r by lia. apply pow2_le. lia. }
  pose proof (pow2_pos (ez + 1074) ltac:(lia)) as HP.
  nia.
Qed.

(** Monotonicity of the rounding, from above: the rounding of a value that
    is at least a binary64 number is at least this number. *)
Lemma binary_round_above (D m : positive) (ez e : Z) :
  -1074 <= ez ->
  Zpos (digits2_pos D) + ez <= 1 ->
  bounded prec emax m e = true ->
  scaled_value m e <= scaled_value D ez ->
  exists (mr : positive) (er : Z),
    binary_round prec emax false D ez = S754_finite false mr er /\
    bounded prec emax mr er = true /\
    scaled_value m e <= scaled_value mr er.
Proof.
  intros Hez Hsmall Hb Hle.
  pose proof (digits2_pos_bounds D) as [B1 B2].
  set (d := Zpos (digits2_pos D)) in *.
  destruct (bounded_normal m e Hb) as (He & Hm & _).
  destruct (Z_le_gt_dec d 53) as [Hd|Hd].
  - destruct (binary_round_exact false D ez) as (mz & Eq & Ez).
    { fold d. rewrite fexp64. lia. }
    { fold d. rewrite fexp64. lia. }
    fold d in Eq, Ez. rewrite fexp64 in Eq, Ez.
    set (et := Z.max (d + ez - 53) (-1074)) in *.
    assert (et <= ez) as Het by (unfold et; lia).
    exists mz, et. split; [exact Eq|]. split.
    + apply bounded_intro; [|unfold et; lia].
      rewrite (digits2_pos_scale D mz (ez - et)) by (lia || exact Ez).
      fold d. replace (d + (ez - et) + et) with (d + ez) by lia.
      rewrite fexp64. reflexivity.
    + replace (scaled_value mz et) with (scaled_value D ez); [exact Hle|].
      unfold scaled_value. rewrite Ez, <- Z.mul_assoc, <- Z.pow_add_r by (unfold et; lia).
      f_equal. f_equal. lia.
  - set (k := d - 53) in *.
    assert (1 <= k) as Hk by (unfold k; lia).
    assert (k = fexp prec emax (Zpos (digits2_pos D) + ez) - ez) as Efexp.
    { fold d. rewrite fexp64. unfold k. lia. }
    destruct (rne_bounds (Zpos D) k ltac:(lia) Hk) as [Hq _].
    assert (2 ^ (d - 1) = 2 ^ 52 * 2 ^ k) as Edl.
    { rewrite <- Z.pow_add_r by lia. f_equal. unfold k. lia. }
    assert (2 ^ d = 2 ^ 53 * 2 ^ k) as Edu.
    { rewrite <- Z.pow_add_r by lia. f_equal. unfold k. lia. }
    pose proof (pow2_pos k ltac:(lia)) as Hpk.
    assert (2 ^ 52 <= Zpos D / 2 ^ k < 2 ^ 53) as Hdiv.
    { split.
      - apply Z.div_le_lower_bound; lia.
      - apply Z.div_lt_upper_bound; lia. }
    change (2 ^ 52) with 4503599627370496 in *.
    change (2 ^ 53) with 9007199254740992 in *.
    set (P := 2 ^ (ez + 1074)) in *.
    assert (0 < P) as HP by (apply pow2_pos; lia).
    assert (2 ^ (ez + k + 1074) = 2 ^ k * P) as EU.
    { unfold P. rewrite <- Z.pow_add_r by lia. f_equal. lia. }
    unfold scaled_value in Hle. fold P in Hle.
    set (m2 := rne (Zpos D) k) in *.
    (* the bound in units of the rounding *)
    assert (Zpos m * 2 ^ (e + 1074) <= m2 * (2 ^ k * P)) as Hbound.
    { destruct (Z_le_gt_dec (ez + k) e) as [Hee|Hee].
      - set (N := Zpos m * 2 ^ (e - (ez + k))).
        assert (Zpos m * 2 ^ (e + 1074) = N * (2 ^ k * P)) as EN.
        { unfold N. rewrite <- EU, <- Z.mul_assoc, <- Z.pow_add_r by lia.
          f_equal. f_equal. lia. }
        assert (N <= m2) as Hrne.
        { apply rne_ge_multiple; [lia|exact Hk|]. rewrite EN in Hle. nia. }
        rewrite EN. nia.
      - assert (2 ^ (ez + k + 1074) = 2 ^ (ez + k - e) * 2 ^ (e + 1074)) as E1.
        { rewrite <- Z.pow_add_r by lia. f_equal. lia. }
        pose proof (pow2_le 1 (ez + k - e) ltac:(lia)) as H1.
        change (2 ^ 1) with 2 in H1.
        pose proof (pow2_pos (e + 1074) ltac:(lia)) as Hpe.
        rewrite <- EU, E1.
        assert (4503599627370496 <= m2) by lia.
        generalize dependent (2 ^ (e + 1074)). generalize dependent (2 ^ (ez + k - e)).
        intros. nia. }
    destruct (Z_lt_ge_dec m2 9007199254740992) as [Hnocarry|Hcarry].
    + destruct m2 as [|m2p|m2p] eqn:Em2; try lia.
      assert (Zpos (digits2_pos m2p) = 53) as Hd2.
      { apply digits2_pos_unique; [|lia].
        change (2 ^ (53 - 1)) with 4503599627370496.
        change (2 ^ 53) with 9007199254740992. lia. }
      exists m2p, (ez + k). split; [|split].
      * rewrite binary_round_unshifted by (fold d; rewrite fexp64; unfold k; lia).
        apply binary_round_aux_round; try assumption; unfold k; lia.
      * apply bounded_intro; [rewrite Hd2, fexp64|]; unfold k; lia.
      * unfold scaled_value. rewrite EU. exact Hbound.
    + assert (m2 = 9007199254740992) as Em2 by lia.
      exists 4503599627370496%positive, (ez + k + 1). split; [|split].
      * rewrite binary_round_unshifted by (fold d; rewrite fexp64; unfold k; lia).
        apply binary_round_aux_carry; try assumption; unfold k; lia.
      * apply bounded_intro; [change (Zpos (digits2_pos 4503599627370496)) with 53;
                              rewrite fexp64|]; unfold k; lia.
      * unfold scaled_value.
        replace (ez + k + 1 + 1074) with (ez + k + 1074 + 1) by lia.
        rewrite pow2_succ by lia. rewrite EU. rewrite Em2 in Hbound. nia.
Qed.

(** ** Addition of non-negative numbers *)

(** The sum of two non-negative numbers of values [a] and [b], when
    [a + b] lies between the values [lo] and [hi] of two binary64 numbers
    below 2, is a non-negative number whose value lies between them. *)
Lemma value_add (x y l h : spec_float) (a b lo hi : Z) :
  nonneg_value x = Some a -> nonneg_value y = Some b ->
  nonneg_value l = Some lo -> nonneg_value h = Some hi ->
  lo <= a + b <= hi -> hi < 2 ^ 1075 ->
  exists v, nonneg_value (SF64add x y) = Some v /\ lo <= v <= hi.
Proof.
  intros Hx Hy Hl Hh Hab Hhi.
  destruct (nonneg_value_cases x a Hx) as [(sx & -> & ->)|(mx & ex & -> & Bx & -> & Px)];
    destruct (nonneg_value_cases y b Hy) as [(sy & -> & ->)|(my & ey & -> & By & -> & Py)].
  - exists 0. split; [by destruct sx, sy|lia].
  - rewrite SFadd_zero_l. exists (scaled_value my ey).
    split; [by apply nonneg_value_finite|lia].
  - rewrite SFadd_zero_r. exists (scaled_value mx ex).
    split; [by apply nonneg_value_finite|lia].
  - destruct (bounded_normal mx ex Bx) as (Hex & _ & _).
    destruct (bounded_normal my ey By) as (Hey & _ & _).
    destruct (SFadd_finite_value mx my ex ey ltac:(lia) ltac:(lia)) as (S & -> & EV).
    assert (-1074 <= Z.min ex ey) as Hez by lia.
    pose proof (digits_of_bounded S (Z.min ex ey) 1 Hez ltac:(lia)
                  ltac:(change (1074 + 1) with 1075; lia)) as Hd.
    destruct (nonneg_value_cases h hi Hh)
      as [(sh & -> & ->)|(mh & eh & -> & Bh & -> & Ph)]; [lia|].
    destruct (binary_round_below S mh (Z.min ex ey) eh Hez Hd Bh ltac:(lia))
      as (mr & er & ER & Br & Hle).
    rewrite ER. exists (scaled_value mr er).
    split; [by apply nonneg_value_finite|]. split; [|exact Hle].
    destruct (nonneg_value_cases l lo Hl)
      as [(sl & -> & ->)|(ml & el & -> & Bl & -> & Pl)].
    + destruct (bounded_normal mr er Br) as (Her & _ & _).
      pose proof (scaled_value_pos mr er ltac:(lia)). lia.
    + destruct (binary_round_above S ml (Z.min ex ey) el Hez Hd Bl ltac:(lia))
        as (mr' & er' & ER' & _ & Hge).
      rewrite ER in ER'. injection ER' as <- <-. exact Hge.
Qed.

(** ** Multiplication and division by 2 *)

(** [k] bits are rounded away and the rounded mantissa is in canonical
    form at the new exponent. *)
Lemma binary_round_aux_canonical (sx : bool) (m m2 : positive) (e k : Z) :
  k = fexp prec emax (Zpos (digits2_pos m) + e) - e ->
  1 <= k ->
  rne (Zpos m) k = Zpos m2 ->
  fexp prec emax (Zpos (digits2_pos m2) + (e + k)) <= e + k ->
  e + k <= 971 ->
  binary_round_aux prec emax sx (Zpos m) e loc_Exact = S754_finite sx m2 (e + k).
Proof.
  intros Hk Hk1 Hr Hd He. unfold binary_round_aux.
  destruct (shr_fexp_shift (Zpos m) e k) as (mrs & -> & Hinv); [lia|exact Hk|exact Hk1|].
  rewrite (round_nearest_even_rne _ _ _ Hk1 Hinv), Hr.
  rewrite shr_fexp_exact.
  - cbn [shr_m]. change (emax - prec) with 971.
    destruct (Z.leb_spec (e + k) 971); [reflexivity|lia].
  - cbn [Zdigits2]. lia.
Qed.

Lemma SFmul_finite (m1 m2 : positive) (e1 e2 : Z) :
  SF64mul (S754_finite false m1 e1) (S754_finite false m2 e2)
  = binary_round_aux prec emax false (Zpos (m1 * m2)) (e1 + e2) loc_Exact.
Proof. reflexivity. Qed.

Lemma SFmul_two_zero (s : bool) : SF64mul SF_two (S754_zero s) = S754_zero s.
Proof. reflexivity. Qed.

(** Doubling a non-negative number that is at most 1 is exact. *)
Lemma value_mul_two (x : spec_float) (a : Z) :
  nonneg_value x = Some a -> a <= 2 ^ 1074 ->
  nonneg_value (SF64mul SF_two x) = Some (2 * a).
Proof.
  intros Hx Ha.
  destruct (nonneg_value_cases x a Hx) as [(sx & -> & ->)|(m & e & -> & Bx & -> & Px)].
  - rewrite SFmul_two_zero. reflexivity.
  - unfold SF_two. rewrite SFmul_finite.
    destruct (bounded_facts m e Bx) as (He & Hd & Hm & Hn).
    pose proof (digits2_pos_bounds m) as [D1 D2].
    set (d := Zpos (digits2_pos m)) in *.
    set (P := (4503599627370496 * m)%positive).
    assert (Zpos P = Zpos m * 2 ^ 52) as EP.
    { unfold P. rewrite Pos2Z.inj_mul. change (2 ^ 52) with 4503599627370496. lia. }
    assert (Zpos (digits2_pos P) = d + 52) as DP
      by (apply (digits2_pos_scale m P 52); [lia|exact EP]).
    (* the number is at most 1: its exponent is below that of 1 *)
    assert (d + e <= 1) as Hde.
    { unfold scaled_value in Ha.
      destruct (Z_le_gt_dec (d + e) 1) as [H|H]; [exact H|exfalso].
      assert (2 ^ 1074 < 2 ^ (d - 1) * 2 ^ (e + 1074)).
      { rewrite <- Z.pow_add_r by lia. apply pow2_lt. lia. }
      pose proof (pow2_pos (e + 1074) ltac:(lia)). nia. }
    destruct (Z_le_gt_dec 53 d) as [Hnormal|Hsub].
    + (* a normal number: the exponent goes up by one *)
      assert (d = 53) as Ed by lia.
      rewrite (binary_round_aux_canonical false P m (-51 + e) 52).
      * replace (-51 + e + 52) with (e + 1) by lia.
        rewrite nonneg_value_finite.
        { f_equal. unfold scaled_value.
          replace (e + 1 + 1074) with (e + 1074 + 1) by lia.
          rewrite pow2_succ by lia. lia. }
        apply bounded_intro; [fold d; rewrite Ed, fexp64|]; lia.
      * rewrite DP, Ed, fexp64. lia.
      * lia.
      * rewrite EP. apply rne_exact. lia.
      * fold d. rewrite Ed, fexp64. lia.
      * lia.
    + (* a subnormal number: the mantissa doubles *)
      assert (e = -1074) as Ee by (destruct Hn; [assumption|lia]).
      subst e.
      rewrite (binary_round_aux_canonical false P (m~0) (-51 + -1074) 51).
      * replace (-51 + -1074 + 51) with (-1074) by lia.
        rewrite nonneg_value_finite.
        { f_equal; unfold scaled_value; lia. }
        apply bounded_intro; [|lia].
        change (digits2_pos m~0) with (Pos.succ (digits2_pos m)).
        rewrite Pos2Z.inj_succ. fold d. rewrite fexp64. lia.
      * rewrite DP, fexp64. lia.
      * lia.
      * assert (Zpos P = Zpos m~0 * 2 ^ 51) as EP2
          by (rewrite EP; change (2 ^ 52) with (2 * 2 ^ 51); lia).
        rewrite EP2. apply rne_exact. lia.
      * change (digits2_pos m~0) with (Pos.succ (digits2_pos m)).
        rewrite Pos2Z.inj_succ. fold d. rewrite fexp64. lia.
      * lia.
Qed.

Lemma SFdiv_finite (m1 m2 : positive) (e1 e2 : Z) :
  SF64div (S754_finite false m1 e1) (S754_finite false m2 e2)
  = let '(mz, ez, lz) := SFdiv_core_binary prec emax (Zpos m1) e1 (Zpos m2) e2 in
    binary_round_aux prec emax false mz ez lz.
Proof. reflexivity. Qed.

Lemma div_eucl_exact (a b q : Z) : 0 < b -> a = q * b -> Z.div_eucl a b = (q, 0).
Proof.
  intros Hb ->. pose proof (Z_div_mod (q * b) b ltac:(lia)) as H.
  destruct (Z.div_eucl (q * b) b) as [q' r']. destruct H as [H1 H2].
  assert (q' = q) as -> by nia. f_equal. lia.
Qed.

(** The quotient of a normal number by 2, before rounding: one more bit,
    all of the remainder zero. *)
Lemma SFdiv_core_two (m : positive) (e : Z) :
  Zpos (digits2_pos m) = 53 -> -1072 <= e ->
  SFdiv_core_binary prec emax (Zpos m) e 4503599627370496 (-51)
  = (Zpos m~0, e - 2, loc_Exact).
Proof.
  intros Hd He.
  assert (Z.min (fexp prec emax (53 + e - (53 + -51))) (e - -51) = e - 2) as E'
    by (rewrite fexp64; lia).
  unfold SFdiv_core_binary. cbv zeta. cbn [Zdigits2]. rewrite Hd.
  change (Zpos (digits2_pos 4503599627370496)) with 53. rewrite E'.
  replace (e - -51 - (e - 2)) with 53 by lia. cbv iota.
  rewrite Z.shiftl_mul_pow2 by lia.
  rewrite (div_eucl_exact _ _ (Zpos m~0)).
  - reflexivity.
  - reflexivity.
  - change (2 ^ 53) with (2 * 4503599627370496). lia.
Qed.

(** Halving a number between 1 and 2 is exact. *)
Lemma value_div_two (x : spec_float) (a : Z) :
  nonneg_value x = Some a -> 2 ^ 1074 <= a ->
  exists v, nonneg_value (SF64div x SF_two) = Some v /\ 2 * v = a.
Proof.
  intros Hx Ha. pose proof (pow2_pos 1074 ltac:(lia)) as P74.
  destruct (nonneg_value_cases x a Hx) as [(sx & -> & ->)|(m & e & -> & Bx & -> & Px)];
    [lia|].
  destruct (bounded_facts m e Bx) as (He & Hd & Hm & Hn).
  pose proof (digits2_pos_bounds m) as [D1 D2].
  (* at least 1: a normal number, of exponent above -53 *)
  assert (-53 < e) as He53.
  { unfold scaled_value in Ha.
    destruct (Z_lt_ge_dec (-53) e) as [H|H]; [exact H|exfalso].
    assert (2 ^ 53 * 2 ^ (e + 1074) <= 2 ^ 1074).
    { rewrite <- Z.pow_add_r by lia. apply pow2_le. lia. }
    pose proof (pow2_pos (e + 1074) ltac:(lia)). nia. }
  assert (Zpos (digits2_pos m) = 53) as Ed by (destruct Hn; [lia|assumption]).
  unfold SF_two. rewrite SFdiv_finite, SFdiv_core_two by (assumption || lia).
  cbv beta iota.
  rewrite (binary_round_aux_canonical false (m~0) m (e - 2) 1).
  - exists (scaled_value m (e - 2 + 1)). split.
    + apply nonneg_value_finite, bounded_intro; [rewrite Ed, fexp64|]; lia.
    + unfold scaled_value. replace (e + 1074) with (e - 2 + 1 + 1074 + 1) by lia.
      rewrite (pow2_succ (e - 2 + 1 + 1074)) by lia. lia.
  - change (digits2_pos m~0) with (Pos.succ (digits2_pos m)).
    rewrite Pos2Z.inj_succ, Ed, fexp64. lia.
  - lia.
  - assert (Zpos m~0 = Zpos m * 2 ^ 1) as -> by (change (2 ^ 1) with 2; lia).
    apply rne_exact. lia.
  - rewrite Ed, fexp64. lia.
  - lia.
Qed.

Local Close Scope Z_scope.

(** ** The walk of the sampler on the vectors of the engines *)

Lemma one_bounded : bounded prec emax 4503599627370496 (-52) = true.
Proof. reflexivity. Qed.

Lemma compare_one (m : positive) (e : Z) :
  bounded prec emax m e = true ->
  SFcompare (S754_finite false m e) (Prim2SF 1)
  = Some (scaled_value m e ?= 2 ^ 1074)%Z.
Proof.
  intros Hb. rewrite Prim2SF_one, (compare_value m _ e _ Hb one_bounded).
  rewrite scaled_value_one. reflexivity.
Qed.

(** A double that is at least 0 is a zero, the positive infinity or a
    positive number. *)
Lemma nonneg_cases (x : double) :
  dle 0 x = true ->
  (exists s, Prim2SF x = S754_zero s) \/
  Prim2SF x = S754_infinity false \/
  (exists m e, Prim2SF x = S754_finite false m e /\ bounded prec emax m e = true).
Proof.
  intros H0. rewrite dle_compare, Prim2SF_zero in H0.
  pose proof (Prim2SF_valid x) as Hv.
  destruct (Prim2SF x) as [s|s| |s m e].
  - left. by exists s.
  - destruct s; cbn [SFcompare] in H0; [discriminate H0|]. right. by left.
  - discriminate H0.
  - destruct s; cbn [SFcompare] in H0; [discriminate H0|].
    right. right. exists m, e. split; [reflexivity|exact Hv].
Qed.

(** One step of the walk: when the entries [x] and [y] are probabilities
    with [x + y = 1] in binary64 and the draw [r] of [[0, 1)] is above [x],
    the reduced draw [r - x] is at most [y]. *)
Lemma walk_step (x y r : double) :
  in_range 0 1 x = true -> in_range 0 1 y = true -> x + y = 1 ->
  is_draw r = true -> dle r x = false ->
  dle (r - x) y = true.
Proof.
  intros Hx Hy Hsum Hr Hrx.
  unfold in_range in Hx, Hy. unfold is_draw in Hr.
  apply andb_true_iff in Hx as [Hx0 Hx1]. apply andb_true_iff in Hy as [Hy0 Hy1].
  apply andb_true_iff in Hr as [Hr0 Hr1].
  apply (f_equal Prim2SF) in Hsum. rewrite add_spec in Hsum.
  rewrite dle_compare in Hx1, Hy1, Hrx. rewrite dlt_compare in Hr1.
  rewrite dle_compare, sub_spec.
  destruct (nonneg_cases r Hr0) as [[sr Er]|[Er|(mr & er & Er & Br)]]; rewrite Er in *.
  - (* the draw is a zero: it is at most [x] *)
    destruct (nonneg_cases x Hx0) as [[sx Ex]|[Ex|(mx & ex & Ex & Bx)]];
      rewrite Ex in Hrx; cbn [SFcompare] in Hrx; discriminate Hrx.
  - rewrite Prim2SF_one in Hr1. cbn [SFcompare] in Hr1. discriminate Hr1.
  - rewrite (compare_one mr er Br) in Hr1.
    assert (scaled_value mr er < 2 ^ 1074)%Z as Vr.
    { destruct (Z.compare_spec (scaled_value mr er) (2 ^ 1074)); [discriminate Hr1|assumption|discriminate Hr1]. }
    destruct (nonneg_cases x Hx0) as [[sx Ex]|[Ex|(mx & ex & Ex & Bx)]]; rewrite Ex in *.
    + (* [x] is a zero, so [y] is 1 *)
      rewrite SFsub_zero_r.
      destruct (nonneg_cases y Hy0) as [[sy Ey]|[Ey|(my & ey & Ey & By)]];
        rewrite Ey in *.
      * rewrite Prim2SF_one in Hsum. destruct sx, sy; discriminate Hsum.
      * rewrite Prim2SF_one in Hy1. cbn [SFcompare] in Hy1. discriminate Hy1.
      * rewrite SFadd_zero_l in Hsum. rewrite Hsum, (compare_one mr er Br).
        destruct (Z.compare_spec (scaled_value mr er) (2 ^ 1074)); [reflexivity|reflexivity|lia].
    + rewrite Prim2SF_one in Hx1. cbn [SFcompare] in Hx1. discriminate Hx1.
    + rewrite (compare_value mr mx er ex Br Bx) in Hrx.
      assert (scaled_value mx ex < scaled_value mr er)%Z as Vx.
      { destruct (Z.compare_spec (scaled_value mr er) (scaled_value mx ex));
          [discriminate Hrx|discriminate Hrx|assumption]. }
      destruct (nonneg_cases y Hy0) as [[sy Ey]|[Ey|(my & ey & Ey & By)]];
        rewrite Ey in *.
      * (* [y] is a zero, so [x] is 1, above the draw *)
        rewrite SFadd_zero_r in Hsum. rewrite Prim2SF_one in Hsum.
        injection Hsum as -> ->. rewrite scaled_value_one in Vx. lia.
      * rewrite Prim2SF_one in Hy1. cbn [SFcompare] in Hy1. discriminate Hy1.
      * rewrite Prim2SF_one in Hsum.
        destruct (walk_step_value mr mx my er ex ey Br Bx By Hsum Vr Vx)
          as (md & ed & -> & Bd & Hle).
        rewrite (compare_value md my ed ey Bd By).
        destruct (Z.compare_spec (scaled_value md ed) (scaled_value my ey));
          [reflexivity|reflexivity|lia].
Qed.

Lemma add_zero_one (s : double) : s + 0 = 1 -> s = 1.
Proof.
  intros H. apply (f_equal Prim2SF) in H. rewrite add_spec, Prim2SF_zero in H.
  apply Prim2SF_inj.
  destruct (Prim2SF s) as [b|b| |b m e].
  - rewrite Prim2SF_one in H. destruct b; discriminate H.
  - rewrite Prim2SF_one in H. discriminate H.
  - rewrite Prim2SF_one in H. discriminate H.
  - rewrite SFadd_zero_r in H. exact H.
Qed.

(** A draw above 0 is not changed when the entry 0 is taken off it. *)
Lemma draw_sub_zero (r : double) :
  is_draw r = true -> dle r 0 = false -> r - 0 = r.
Proof.
  intros Hr H0. unfold is_draw in Hr. apply andb_true_iff in Hr as [Hr0 Hr1].
  apply Prim2SF_inj. rewrite sub_spec, Prim2SF_zero.
  rewrite dle_compare, Prim2SF_zero in H0. rewrite dlt_compare in Hr1.
  destruct (nonneg_cases r Hr0) as [[sr Er]|[Er|(mr & er & Er & Br)]]; rewrite Er in *.
  - cbn [SFcompare] in H0. discriminate H0.
  - rewrite Prim2SF_one in Hr1. cbn [SFcompare] in Hr1. discriminate Hr1.
  - apply SFsub_zero_r.
Qed.

(** On a vector of the engines the walk stops at an entry of the vector. *)
Lemma sample_walk_engine_vector (v : list double) (r : double) :
  engine_vector v -> is_draw r = true ->
  (sample_walk v (NUM_ACTION_TYPES - a_fold) a_fold r < NUM_ACTION_TYPES)%nat.
Proof.
  intros (p & Hp & Hv) Hr.
  destruct (complement_probability p Hp) as (Hc & Hsum & _).
  apply add_zero_one in Hsum.
  change (NUM_ACTION_TYPES - a_fold)%nat with 3%nat. unfold a_fold, NUM_ACTION_TYPES.
  destruct Hv as [-> | ->]; cbn [sample_walk].
  - change ([1 - p; p; 0] !!! 0%nat) with (1 - p).
    change ([1 - p; p; 0] !!! 1%nat) with p.
    destruct (dle r (1 - p)) eqn:E1; [lia|].
    rewrite (walk_step (1 - p) p r Hc Hp Hsum Hr E1). lia.
  - change ([0; 1 - p; p] !!! 0%nat) with 0.
    change ([0; 1 - p; p] !!! 1%nat) with (1 - p).
    change ([0; 1 - p; p] !!! 2%nat) with p.
    destruct (dle r 0) eqn:E0; [lia|].
    rewrite (draw_sub_zero r Hr E0).
    destruct (dle r (1 - p)) eqn:E1; [lia|].
    rewrite (walk_step (1 - p) p r Hc Hp Hsum Hr E1). lia.
Qed.

Lemma engine_vector_fold_call (p : double) :
  in_range 0 1 p = true -> engine_vector [1 - p; p; 0].
Proof. intros Hp. exists p. split; [exact Hp|]. by left. Qed.

Lemma engine_vector_call_raise (p : double) :
  in_range 0 1 p = true -> engine_vector [0; 1 - p; p].
Proof. intros Hp. exists p. split; [exact Hp|]. by right. Qed.

(** The vector of every seat has one of the two shapes. *)
Lemma action_probs_engine_vector
    (L : ParamLayout) (T : StrategyTables)
    (player : kuhn_3p_equilibrium_player_t)
    (viewingPlayer : nat) (card_rank : Z) (state : State) (probs : list double) :
  layout_ok L = true ->
  tables_ok T = true ->
  length (params player) = NUM_PARAMS ->
  params_in_range (params player) ->
  length probs = NUM_ACTION_TYPES ->
  (viewingPlayer = 0%nat -> (0 <= card_rank - JACK_RANK < 4)%Z) ->
  exists v,
    action_probs player viewingPlayer card_rank state probs = Some v /\
    engine_vector v.
Proof.
  intros HL HT Hlen Hp Hprobs Hrank. unfold action_probs.
  destruct (Nat.eqb_spec 0 viewingPlayer) as [E0|E0];
    [|destruct (1 =? viewingPlayer)%nat].
  - specialize (Hrank (eq_sym E0)). unfold action_probs_p0.
    destruct (numActions state 0 =? 0)%nat.
    + destruct (A_at_defined HT (card_rank - JACK_RANK)%Z 0 Hrank ltac:(lia))
        as (a & -> & Ha).
      cbn [mbind option_bind]. eexists. split; [reflexivity|].
      rewrite set_probs_triple by exact Hprobs. by apply engine_vector_call_raise.
    + match goal with
      | |- context [A_at _ ?i] =>
          destruct (A_at_defined HT (card_rank - JACK_RANK)%Z i Hrank) as (a & -> & Ha)
      end.
      { destruct (a_call =? _)%nat; [lia|]. destruct (a_fold =? _)%nat; lia. }
      cbn [mbind option_bind]. eexists. split; [reflexivity|].
      rewrite set_probs_triple by exact Hprobs. by apply engine_vector_fold_call.
  - eexists. split; [reflexivity|]. unfold action_probs_p1.
    destruct (1 =? numActions state 0)%nat;
      [destruct (a_call =? _)%nat|destruct (a_fold =? _)%nat];
      rewrite set_probs_triple by exact Hprobs;
      first [apply engine_vector_call_raise | apply engine_vector_fold_call];
      apply by_rank_ind;
      first [ apply (param_in_range HL (params player) Hlen Hp); index_in_layout
            | apply (constant_in_range HT); constant_in_table ].
  - unfold action_probs_p2.
    assert (forall (f : double -> list double) (o : option double),
              (forall c, in_range 0 1 c = true -> engine_vector (f c)) ->
              (exists c, o = Some c /\ in_range 0 1 c = true) ->
              exists v, (c ← o; Some (f c)) = Some v /\ engine_vector v) as Hbind.
    { intros f o Hf (c & -> & Hc). exists (f c). split; [reflexivity|]. by apply Hf. }
    destruct (a_call =? type (action_ state 0 0))%nat;
      [destruct (a_call =? _)%nat|destruct (a_fold =? _)%nat];
      apply Hbind;
      try (intros c Hc; rewrite set_probs_triple by exact Hprobs;
           first [by apply engine_vector_call_raise | by apply engine_vector_fold_call]);
      apply by_rank_ind;
      first [ eexists; split; [reflexivity|];
              first [ apply (param_in_range HL (params player) Hlen Hp); index_in_layout
                    | apply (constant_in_range HT); constant_in_table ]
            | apply (C4_defined HT); lia ].
Qed.

(** With validated parameters and tables of probabilities, [action] returns
    an action type of the game for every draw of [[0, 1)]: the walk stops at
    fold, call or raise, at every seat, for every card and every betting
    history, and the size of the action is 0.  The first seat needs a card of
    one of the four rows of its table. *)
Theorem action_returns_action_type :
  forall (L : ParamLayout) (T : StrategyTables)
         (player : kuhn_3p_equilibrium_player_t)
         (viewingPlayer : nat) (card_rank : Z) (state : State) (r : double),
    layout_ok L = true ->
    tables_ok T = true ->
    length (params player) = NUM_PARAMS ->
    params_in_range (params player) ->
    (viewingPlayer = 0%nat -> (0 <= card_rank - JACK_RANK < 4)%Z) ->
    is_draw r = true ->
    exists a,
      action player viewingPlayer card_rank state r = Some a /\
      (type a < NUM_ACTION_TYPES)%nat /\ size a = 0%Z.
Proof.
  intros L T player viewingPlayer card_rank state r HL HT Hlen Hp Hrank Hr.
  destruct (action_probs_engine_vector L T player viewingPlayer card_rank state
              (replicate NUM_ACTION_TYPES 0) HL HT Hlen Hp eq_refl Hrank)
    as (v & Ev & Hv).
  unfold action. rewrite Ev. cbn [mbind option_bind].
  eexists. split; [reflexivity|]. split; [|reflexivity].
  exact (sample_walk_engine_vector v r Hv Hr).
Qed.

Lemma action_returns_action_type_witness :
  exists a,
    action (L := example_layout) (T := example_tables) example_validated
      0 11 (history [a_call; a_raise; a_fold]) 0.875 = Some a /\
    (type a < NUM_ACTION_TYPES)%nat /\ size a = 0%Z.
Proof.
  apply (action_returns_action_type example_layout example_tables
           example_validated 0 11 (history [a_call; a_raise; a_fold]) 0.875).
  - reflexivity.
  - reflexivity.
  - reflexivity.
  - intros x Hx. cbn in Hx.
    repeat (apply elem_of_cons in Hx as [->|Hx]; [reflexivity|]).
    inversion Hx.
  - intros _. change (0 <= 11 - 9 < 4)%Z. lia.
  - reflexivity.
Defined.

(** ** The derived parameters are probabilities *)

Lemma Prim2SF_two : Prim2SF 2 = SF_two.
Proof. reflexivity. Qed.

Lemma value_zero : nonneg_value (Prim2SF 0) = Some 0%Z.
Proof. reflexivity. Qed.

Lemma value_quarter : nonneg_value (Prim2SF (1 / 4)) = Some (2 ^ 1072)%Z.
Proof. reflexivity. Qed.

Lemma value_one : nonneg_value (Prim2SF 1) = Some (4 * 2 ^ 1072)%Z.
Proof. reflexivity. Qed.

Lemma value_one_quarter : nonneg_value (Prim2SF 1.25) = Some (5 * 2 ^ 1072)%Z.
Proof. reflexivity. Qed.

Lemma value_one_three_quarters : nonneg_value (Prim2SF 1.75) = Some (7 * 2 ^ 1072)%Z.
Proof. reflexivity. Qed.

(** A double between 0 and a non-negative number [c] is a non-negative
    number, of value at most that of [c]. *)
Lemma value_of_nonneg (x c : double) (vc : Z) :
  dle 0 x = true -> dle x c = true ->
  nonneg_value (Prim2SF c) = Some vc ->
  exists v, nonneg_value (Prim2SF x) = Some v /\ (0 <= v <= vc)%Z.
Proof.
  intros H0 Hc Vc. rewrite dle_compare in Hc.
  destruct (nonneg_cases x H0) as [[s E]|[E|(m & e & E & B)]].
  - exists 0%Z. rewrite E. split; [reflexivity|].
    destruct (nonneg_value_cases _ _ Vc) as [(? & _ & ->)|(? & ? & _ & _ & _ & ?)]; lia.
  - rewrite E in Hc.
    destruct (nonneg_value_cases _ _ Vc) as [(? & Ec & _)|(? & ? & Ec & _)];
      rewrite Ec in Hc; cbn [SFcompare] in Hc; discriminate Hc.
  - pose proof (nonneg_value_finite m e B) as V. rewrite <- E in V.
    exists (scaled_value m e). split; [exact V|].
    rewrite (compare_nonneg_value _ _ _ _ V Vc) in Hc.
    destruct (nonneg_value_cases _ _ V) as [(? & _ & ?)|(? & ? & _ & _ & _ & ?)];
      destruct (Z.compare_spec (scaled_value m e) vc); try discriminate Hc; lia.
Qed.

(** A non-negative number of value at most that of 1 is in [0, 1]. *)
Lemma in_range_of_value (x : double) (v : Z) :
  nonneg_value (Prim2SF x) = Some v -> (v <= 4 * 2 ^ 1072)%Z ->
  in_range 0 1 x = true.
Proof.
  intros V Hv. unfold in_range. rewrite !dle_compare.
  rewrite (compare_nonneg_value _ _ _ _ value_zero V).
  rewrite (compare_nonneg_value _ _ _ _ V value_one).
  assert (0 <= v)%Z
    by (destruct (nonneg_value_cases _ _ V) as [(? & _ & ?)|(? & ? & _ & _ & _ & ?)]; lia).
  destruct (Z.compare_spec 0 v); [|  |lia];
    (destruct (Z.compare_spec v (4 * 2 ^ 1072)); [reflexivity|reflexivity|lia]).
Qed.

(** With 0 <= b11 <= b21 <= 1/4, the closed forms of b41 and b33, evaluated
    in binary64, are in [0, 1]. *)
Lemma closed_forms_in_range (b11 b21 : double) :
  dle 0 b11 = true -> dle b11 b21 = true ->
  dle 0 b21 = true -> dle b21 (1 / 4) = true ->
  in_range 0 1 (2 * b11 + 2 * b21) = true /\
  in_range 0 1 ((1 + b11 + 2 * b21) / 2) = true.
Proof.
  intros H11 Hle H21 Hq.
  destruct (value_of_nonneg b21 (1 / 4) _ H21 Hq value_quarter) as (v21 & V21 & B21).
  destruct (value_of_nonneg b11 b21 _ H11 Hle V21) as (v11 & V11 & B11).
  assert (0 < 2 ^ 1072)%Z as HQ by (apply pow2_pos; lia).
  assert (2 ^ 1074 = 4 * 2 ^ 1072)%Z as E74 by reflexivity.
  assert (2 ^ 1075 = 8 * 2 ^ 1072)%Z as E75 by reflexivity.
  assert (nonneg_value (Prim2SF (2 * b11)) = Some (2 * v11)%Z) as V211.
  { rewrite mul_spec, Prim2SF_two. apply value_mul_two; [exact V11|lia]. }
  assert (nonneg_value (Prim2SF (2 * b21)) = Some (2 * v21)%Z) as V221.
  { rewrite mul_spec, Prim2SF_two. apply value_mul_two; [exact V21|lia]. }
  split.
  - destruct (value_add _ _ _ _ _ _ _ _ V211 V221 value_zero value_one)
      as (v & V & Hv); [lia|lia|].
    rewrite <- add_spec in V. apply (in_range_of_value _ v V). lia.
  - destruct (value_add _ _ _ _ _ _ _ _ value_one V11 value_one value_one_quarter)
      as (t & Vt & Ht); [lia|lia|].
    rewrite <- add_spec in Vt.
    destruct (value_add _ _ _ _ _ _ _ _ Vt V221 value_one value_one_three_quarters)
      as (n & Vn & Hn); [lia|lia|].
    rewrite <- add_spec in Vn.
    destruct (value_div_two _ n Vn ltac:(lia)) as (v & V & Hv).
    rewrite <- Prim2SF_two, <- div_spec in V.
    apply (in_range_of_value _ v V). lia.
Qed.

(** ** Sub-family 1: success and derived parameters *)

(** C1.  Validation need not succeed on a parameter vector of sub-family 1
    whose free parameters satisfy the five inequalities: the final pass
    still checks every slot.  When, besides, every slot other than the
    four derived ones is in [0, 1], [check_params] returns; afterwards
    b23 = 0, b33 = (1 + b11 + 2 b21) / 2, b41 = 2 b11 + 2 b21 and
    c21 = 1/2, the right-hand sides being evaluated in binary64 on the free
    parameters as they were given, and the other slots are as they were. *)
Theorem check_params_family_1_succeeds :
  forall (L : ParamLayout) (pl : kuhn_3p_equilibrium_player_t),
    layout_ok L = true ->
    player_ok pl ->
    sub_family_number (params pl !!! C11_INDEX) = 1%nat ->
    (forall i : inequality, holds (params pl) i = true) ->
    (forall k : nat, (k < NUM_PARAMS)%nat -> k ∉ derived_indices ->
                     in_range 0 1 (params pl !!! k) = true) ->
    exists pl' : kuhn_3p_equilibrium_player_t,
      check_params pl = (pl', Returned tt) /\
      check_family_1_params pl = (pl', Returned tt) /\
      params pl' !!! B23_INDEX = 0 /\
      params pl' !!! B33_INDEX =
        (1 + params pl !!! B11_INDEX + 2 * params pl !!! B21_INDEX) / 2 /\
      params pl' !!! B41_INDEX =
        2 * params pl !!! B11_INDEX + 2 * params pl !!! B21_INDEX /\
      params pl' !!! C21_INDEX = 1 / 2 /\
      (forall k : nat, k ∉ derived_indices -> params pl' !!! k = params pl !!! k).
Proof.
  intros L pl HL Hpl Hc11 Hholds Hrange.
  exists (with_params pl (with_derived (params pl))).
  assert (check_family_1_params pl =
            (with_params pl (with_derived (params pl)), Returned tt)) as E.
  { rewrite check_family_1_params_eq. cbv zeta.
    pose proof (Hholds b21_le_quarter) as H1. pose proof (Hholds b11_le_b21) as H2.
    pose proof (Hholds b32_upper) as H3. pose proof (Hholds c33_lower) as H4.
    pose proof (Hholds c33_upper) as H5.
    unfold holds in H1, H2, H3, H4, H5. unfold violated.
    rewrite (dle_not_dgt _ _ H1), (dle_not_dgt _ _ H2), (dle_not_dgt _ _ H3),
      (dge_not_dlt _ _ H4), (dle_not_dgt _ _ H5).
    by rewrite (stores_are_with_derived HL). }
  destruct (with_derived_slots HL (params pl) Hpl) as (S1 & S2 & S3 & S4).
  (* the closed forms of b33 and b41 are probabilities *)
  assert (in_range 0 1 (params pl !!! B11_INDEX) = true) as R11.
  { apply Hrange; [apply (layout_bound HL)|apply (free_not_derived HL)];
      index_in_layout. }
  assert (in_range 0 1 (params pl !!! B21_INDEX) = true) as R21.
  { apply Hrange; [apply (layout_bound HL)|apply (free_not_derived HL)];
      index_in_layout. }
  unfold in_range in R11, R21.
  apply andb_true_iff in R11 as [R11 _]. apply andb_true_iff in R21 as [R21 _].
  pose proof (Hholds b21_le_quarter) as Hq. pose proof (Hholds b11_le_b21) as Hle.
  unfold holds in Hq, Hle.
  destruct (closed_forms_in_range _ _ R11 Hle R21 Hq) as [R41 R33].
  split; [|split; [exact E|]].
  - rewrite check_params_eq, Hc11, E, check_range_loop_eq.
    replace (existsb _ _) with false; [reflexivity|].
    symmetry. apply existsb_seq_false. intros k Hk.
    cbn [params with_params]. apply in_range_not_out.
    destruct (decide (k ∈ derived_indices)) as [Hd|Hd].
    + unfold derived_indices in Hd.
      repeat (apply elem_of_cons in Hd as [->|Hd]);
        [rewrite S1|rewrite S2|rewrite S3|rewrite S4|inversion Hd];
        first [exact R33 | exact R41 | reflexivity].
    + rewrite (with_derived_other (params pl)) by exact Hd. by apply Hrange.
  - cbn [params with_params].
    repeat (split; [assumption|]).
    intros k Hd. by apply with_derived_other.
Qed.

Lemma check_params_family_1_succeeds_witness :
  exists pl' : kuhn_3p_equilibrium_player_t,
    check_params (L := example_layout) example_player = (pl', Returned tt) /\
    check_family_1_params (L := example_layout) example_player = (pl', Returned tt) /\
    params pl' !!! 6%nat = 0 /\
    params pl' !!! 7%nat = 0.8125 /\
    params pl' !!! 8%nat = 0.75 /\
    params pl' !!! 9%nat = 0.5 /\
    (forall k : nat, k ∉ [6; 7; 8; 9]%nat ->
                     params pl' !!! k = params example_player !!! k).
Proof.
  apply (check_params_family_1_succeeds example_layout example_player).
  - reflexivity.
  - reflexivity.
  - reflexivity.
  - intros []; reflexivity.
  - intros k Hk _. cbn in Hk.
    do 10 (destruct k as [|k]; [reflexivity|]). lia.
Defined.

(** The example vector of sub-family 1 with c34 moved to 2: c11 is 0 and
    the five inequalities hold, yet validation fails with the range
    error. *)
Lemma check_params_family_1_range_error :
  layout_ok example_layout = true /\
  player_ok (H := example_layout) (player_of large_c34_params) /\
  sub_family_number (large_c34_params !!! 3%nat) = 1%nat /\
  (forall i : inequality, holds (L := example_layout) large_c34_params i = true) /\
  snd (check_params (L := example_layout) (player_of large_c34_params))
    = Thrown err_param_range.
Proof.
  split; [reflexivity|]. split; [reflexivity|]. split; [reflexivity|].
  split; [intros []; reflexivity|reflexivity].
Qed.

(** ** Action sampler: a walk that selects nothing *)



